(** * BenchExec tool-info template ([benchexec/tools/template.py])

    A shallow embedding of the adapter contract between the benchmarking
    harness and a tool-info module: the value objects [Task] and
    [ResourceLimits], the default [cmdline], the version probe
    [_version_from_tool], and the abstract-method enforcement of the two
    base classes [BaseTool2] and [BaseTool]. *)

From Stdlib Require Import ZArith NArith Ascii String Lia.
From Stdlib Require Strings.Byte.
From stdpp Require Import base option list gmap.

Local Open Scope nat_scope.

(** ** Python strings *)

Module PyStr.

(** A Python [str] is a sequence of Unicode code points. *)
Definition char : Type := N.
Definition str : Type := list char.

(** A [str] literal, written with a Rocq string of ASCII characters. *)
Definition lit (s : String.string) : str :=
  N_of_ascii <$> list_ascii_of_string s.

Definition between (lo hi c : N) : bool := ((lo <=? c) && (c <=? hi))%N.

(** The code points that [str.strip] removes ([str.isspace]). *)
Definition is_space (c : char) : bool :=
  between 9 13 c || between 28 32 c || (c =? 133)%N || (c =? 160)%N
  || (c =? 5760)%N || between 8192 8202 c || (c =? 8232)%N || (c =? 8233)%N
  || (c =? 8239)%N || (c =? 8287)%N || (c =? 12288)%N.

(** The code points at which [str.splitlines] breaks a line. *)
Definition is_linebreak (c : char) : bool :=
  between 10 13 c || between 28 30 c || (c =? 133)%N
  || (c =? 8232)%N || (c =? 8233)%N.

Fixpoint lstrip (s : str) : str :=
  match s with
  | [] => []
  | c :: rest => if is_space c then lstrip rest else s
  end.

Definition rstrip (s : str) : str := rev (lstrip (rev s)).

(** [s.strip()] *)
Definition strip (s : str) : str := rstrip (lstrip s).

(** [s.splitlines()], with the line read so far kept reversed in [cur].
    A carriage return followed by a line feed ends one line, and no empty
    line is reported after the last line break. *)
Fixpoint splitlines_from (cur : str) (s : str) : list str :=
  match s with
  | [] => match cur with [] => [] | _ => [rev cur] end
  | c :: rest =>
      if is_linebreak c then
        rev cur ::
        match rest with
        | c2 :: rest' =>
            if ((c =? 13) && (c2 =? 10))%N then splitlines_from [] rest'
            else splitlines_from [] rest
        | [] => splitlines_from [] rest
        end
      else splitlines_from (c :: cur) rest
  end.

Definition splitlines (s : str) : list str := splitlines_from [] s.

(** [s.startswith(prefix)] *)
Fixpoint startswith (s prefix : str) : bool :=
  match prefix, s with
  | [], _ => true
  | _ :: _, [] => false
  | p :: prefix', c :: s' => (c =? p)%N && startswith s' prefix'
  end.

(** [bool(s)]: a string is true when it is not empty. *)
Definition truthy (s : str) : bool :=
  match s with [] => false | _ => true end.

(** [tuple(s)]: the characters of [s], each as a string of length one. *)
Definition chars (s : str) : list str := (λ c, [c]) <$> s.

End PyStr.

Import PyStr.

(** ** Exceptions and the object store *)

Inductive exn :=
  | AssertionError
  | UnsupportedFeatureException
  | TypeError
  | NotImplementedError
  | UnicodeDecodeError
  | ValueError.

Inductive result (A : Type) :=
  | Ok (a : A)
  | Raise (e : exn).
Arguments Ok {A} a.
Arguments Raise {A} e.

Module Store.

(** Objects live at addresses; a reference is the address of an object. *)
Abbreviation addr := nat (only parsing).

(** Immutable scalars of option data. *)
Inductive atom :=
  | ANone
  | ABool (b : bool)
  | AInt (z : Z)
  | AStr (s : str).

Inductive value :=
  | VAtom (a : atom)
  | VRef (a : addr).

(** The mutable containers of option data: a [list], or a [dict] with
    scalar keys in insertion order. *)
Inductive object :=
  | OList (items : list value)
  | ODict (items : list (atom * value)).

Definition children (o : object) : list value :=
  match o with
  | OList xs => xs
  | ODict kvs => kvs.*2
  end.

(** A container of the kind (and, for a [dict], the keys) of [o] that
    holds the values [ys]. *)
Definition rebuild (o : object) (ys : list value) : object :=
  match o with
  | OList _ => OList ys
  | ODict kvs => ODict (zip (kvs.*1) ys)
  end.

(** The store: the [list] objects that hold paths, and the containers of
    option data. An object is allocated at the end of its region. *)
Record store := mkStore {
  lists : list (list str);
  objects : list object
}.

Definition empty : store := mkStore [] [].

(** A sequence of paths passed to a function: an immutable [tuple], or a
    reference to a [list] object of the store. *)
Inductive pyseq :=
  | SeqTuple (items : list str)
  | SeqList (a : addr).

(** [tuple(seq)]: the items the sequence holds now. *)
Definition tuple (st : store) (seq : pyseq) : option (list str) :=
  match seq with
  | SeqTuple items => Some items
  | SeqList a => lists st !! a
  end.

(** *** [copy.deepcopy]

    [deepcopy_memo] is [copy.deepcopy(x, memo)]: a scalar is returned as it
    is; an object already in [memo] is answered from it; otherwise a new
    empty container is allocated and entered in [memo] before the items
    are copied into it in order. The new container is written once all
    its items are copied, nothing reads it before. *)
Fixpoint deepcopy_items
    (cp : gmap addr addr → list object → value →
          option (gmap addr addr * list object * value))
    (memo : gmap addr addr) (h : list object) (xs : list value)
    : option (gmap addr addr * list object * list value) :=
  match xs with
  | [] => Some (memo, h, [])
  | x :: xs' =>
      match cp memo h x with
      | Some (memo1, h1, y) =>
          match deepcopy_items cp memo1 h1 xs' with
          | Some (memo2, h2, ys) => Some (memo2, h2, y :: ys)
          | None => None
          end
      | None => None
      end
  end.

Fixpoint deepcopy_memo (fuel : nat) (memo : gmap addr addr)
    (h : list object) (v : value)
    : option (gmap addr addr * list object * value) :=
  match v with
  | VAtom _ => Some (memo, h, v)
  | VRef a =>
      match memo !! a with
      | Some a' => Some (memo, h, VRef a')
      | None =>
          match fuel, h !! a with
          | S fuel', Some o =>
              let a' := length h in
              match deepcopy_items (deepcopy_memo fuel') (<[a:=a']> memo)
                      (h ++ [rebuild o []]) (children o) with
              | Some (memo', h', ys) =>
                  Some (memo', <[a':=rebuild o ys]> h', VRef a')
              | None => None
              end
          | _, _ => None
          end
      end
  end.

(** [copy.deepcopy(v)]: a fresh memo, and one unit of fuel for each
    object there is. *)
Definition deepcopy (st : store) (v : value) : option (value * store) :=
  match deepcopy_memo (length (objects st)) ∅ (objects st) v with
  | Some (_, h', v') => Some (v', mkStore (lists st) h')
  | None => None
  end.

(** *** What a value looks like

    The data a value denotes in a store, unfolded to depth [n]: this is
    what comparing with [==] or printing the value observes. *)
#[local] Unset Elimination Schemes.
Inductive tree :=
  | TAtom (a : atom)
  | TList (items : list tree)
  | TDict (items : list (atom * tree))
  | TElided.
#[local] Set Elimination Schemes.

Fixpoint view (n : nat) (h : list object) (v : value) : tree :=
  match v with
  | VAtom a => TAtom a
  | VRef a =>
      match n with
      | 0 => TElided
      | S n' =>
          match h !! a with
          | Some (OList xs) => TList (view n' h <$> xs)
          | Some (ODict kvs) => TDict (prod_map id (view n' h) <$> kvs)
          | None => TElided
          end
      end
  end.

(** Every reference of the store leads to an object. *)
Definition value_ok (n : nat) (v : value) : Prop :=
  match v with
  | VAtom _ => True
  | VRef a => a < n
  end.

Definition heap_ok (h : list object) : Prop :=
  ∀ a o, h !! a = Some o → Forall (value_ok (length h)) (children o).

(** *** What the rest of the program may do

    One step of code that does not hold the objects at the addresses
    [lo, lo+1, ..., hi-1]: it replaces the items of a [list] of paths,
    replaces an object at another address, or allocates. *)
Inductive mutation (lo hi : addr) : store → store → Prop :=
  | mut_list st a items :
      mutation lo hi st (mkStore (<[a:=items]> (lists st)) (objects st))
  | mut_list_alloc st items :
      mutation lo hi st (mkStore (lists st ++ [items]) (objects st))
  | mut_object st a o :
      ¬ (lo ≤ a < hi) →
      mutation lo hi st (mkStore (lists st) (<[a:=o]> (objects st)))
  | mut_alloc st o :
      mutation lo hi st (mkStore (lists st) (objects st ++ [o])).

Definition mutations (lo hi : addr) : store → store → Prop :=
  rtc (mutation lo hi).

End Store.

Import Store.

(** Computations that read and extend the store and may raise; [None] is
    a store that is not well formed (a reference without an object). *)
Definition M (A : Type) : Type := store → option (result A * store).

Definition ret {A} (a : A) : M A := λ st, Some (Ok a, st).
Definition raise {A} (e : exn) : M A := λ st, Some (Raise e, st).
Definition lift {A} (r : result A) : M A := λ st, Some (r, st).
Definition bind {A B} (m : M A) (k : A → M B) : M B :=
  λ st, match m st with
        | Some (Ok a, st') => k a st'
        | Some (Raise e, st') => Some (Raise e, st')
        | None => None
        end.

Notation "'let!' x ':=' m 'in' k" := (bind m (λ x, k))
  (at level 10, x name, m at level 200, k at level 200).

(** [assert cond] *)
Definition assert (cond : bool) : M unit :=
  if cond then ret tt else raise AssertionError.

(** [tuple(seq)] and [copy.deepcopy(v)] on the current store. *)
Definition py_tuple (seq : pyseq) : M (list str) :=
  λ st, match tuple st seq with
        | Some items => Some (Ok items, st)
        | None => None
        end.

Definition copy_deepcopy (v : value) : M value :=
  λ st, match deepcopy st v with
        | Some (v', st') => Some (Ok v', st')
        | None => None
        end.

(** ** What the version probe exchanges with its environment *)

(** What [subprocess.Popen([executable, arg]).communicate()] gives: the
    launch fails with an [OSError], or the process ends with its two
    captured streams and its return code, or the call raises an
    exception that is not an [OSError] (a [ValueError] for an argument
    with a null character, for one). *)
Inductive popen_result :=
  | OSError (strerror : str)
  | Exited (stdout stderr : list Byte.byte) (returncode : Z)
  | Raised (e : exn).

(** The records passed to [logging.warning], one constructor per message. *)
Inductive warning :=
  | CannotRun (executable strerror : str)
  | ErrorOutput (executable output : str)
  | ExitCode (executable : str) (returncode : Z).

(** ** [os.path] on POSIX *)

Module OsPath.

Definition sep : char := 47%N.
Definition is_sep (c : char) : bool := (c =? sep)%N.

Definition curdir : str := lit ".".
Definition pardir : str := lit "..".

Fixpoint drop_while (f : char → bool) (s : str) : str :=
  match s with
  | [] => []
  | c :: rest => if f c then drop_while f rest else s
  end.

(** [head.rstrip("/")] *)
Definition rstrip_sep (s : str) : str := rev (drop_while is_sep (rev s)).

(** [os.path.dirname(p)]: everything up to the last slash; the slashes
    at its end are removed unless it consists of slashes only. *)
Definition dirname (p : str) : str :=
  let head := rev (drop_while (λ c, negb (is_sep c)) (rev p)) in
  if forallb is_sep head then head else rstrip_sep head.

(** [a.endswith("/")] *)
Definition ends_with_sep (a : str) : bool :=
  match last a with
  | Some c => is_sep c
  | None => false
  end.

(** [os.path.join(a, b)] *)
Definition join (a b : str) : str :=
  if startswith b [sep] then b
  else if negb (truthy a) || ends_with_sep a then a ++ b
  else a ++ [sep] ++ b.

End OsPath.

(** ** The base classes *)

(** The two methods of the contract that have no usable default. *)
Inductive method :=
  | m_name
  | m_executable.

(** *** [class BaseTool2] *)

Module BaseTool2.

(** The methods under [@abstractmethod]; the metaclass is [ABCMeta]. *)
Definition abstract_methods : list method := [m_name; m_executable].

(** [name(self)] *)
Definition name : result str := Raise NotImplementedError.

(** [version(self, executable)] *)
Definition version (executable : str) : str := [].

(** [_version_from_tool(self, executable, arg, use_stderr, ignore_stderr,
    line_prefix)] *)

Section Probe.

(** The operating system, and [benchexec.util.decode_to_string], which
    raises on bytes that it cannot decode. *)
Variable popen : str → str → popen_result.
Variable decode_to_string : list Byte.byte → result str.

(** [bool(stderr)] and [bool(process.returncode)] *)
Definition bytes_truthy (b : list Byte.byte) : bool :=
  match b with [] => false | _ => true end.
Definition int_truthy (z : Z) : bool := negb (z =? 0)%Z.

(** The generator [matches] of the stripped remainders of the lines that
    start with [line_prefix], and what [next] takes from it: its first
    item, or the empty string. *)
Definition matches (line_prefix output : str) : list str :=
  (λ line, strip (drop (length line_prefix) line))
    <$> List.filter (λ line, startswith line line_prefix) (splitlines output).

Definition next_or_empty (gen : list str) : str :=
  match gen with m :: _ => m | [] => [] end.

(** The probe returns or raises, and logs warnings. [if line_prefix:]
    holds for a prefix that is neither [None] nor empty. The argument of
    [logging.warning] is evaluated before the call: when decoding the
    error output raises, nothing is logged. *)
Definition _version_from_tool (executable arg : str)
    (use_stderr ignore_stderr : bool) (line_prefix : option str)
    : result str * list warning :=
  match popen executable arg with
  | OSError strerror => (Ok [], [CannotRun executable strerror])
  | Raised e => (Raise e, [])
  | Exited stdout stderr returncode =>
      if bytes_truthy stderr && negb use_stderr && negb ignore_stderr then
        match decode_to_string stderr with
        | Ok text => (Ok [], [ErrorOutput executable text])
        | Raise e => (Raise e, [])
        end
      else if int_truthy returncode then
        (Ok [], [ExitCode executable returncode])
      else
        match decode_to_string (if use_stderr then stderr else stdout) with
        | Raise e => (Raise e, [])
        | Ok text =>
            let output := strip text in
            match line_prefix with
            | Some p =>
                if truthy p then (Ok (next_or_empty (matches p output)), [])
                else (Ok output, [])
            | None => (Ok output, [])
            end
        end
  end.

End Probe.

(** [_program_files_from_executable(self, executable, required_paths,
    parent_dir)] and [program_files(self, executable)], for a class with
    the attribute [REQUIRED_PATHS]. *)
Section ProgramFiles.

(** [benchexec.util.expand_filename_pattern(pattern, base_dir)], which
    asks the file system. *)
Variable expand_filename_pattern : str → str → list str.

Definition _program_files_from_executable (executable : str)
    (required_paths : list str) (parent_dir : bool) : list str :=
  let base_dir := OsPath.dirname executable in
  let base_dir :=
    if parent_dir then OsPath.join base_dir OsPath.pardir else base_dir in
  concat ((λ path, expand_filename_pattern path base_dir) <$> required_paths).

Definition program_files (REQUIRED_PATHS : list str) (executable : str)
    : list str :=
  [executable] ++ _program_files_from_executable executable REQUIRED_PATHS false.

End ProgramFiles.

(** [working_directory(self, executable)] *)
Definition working_directory (executable : str) : str := OsPath.curdir.

(** [class Task] *)

Module Task.

Record t := mk {
  input_files_or_empty : list str;
  identifier : option str;
  property_file : option str;
  options : value
}.

(** [bool(identifier)]: [None] and the empty string are false. *)
Definition identifier_truthy (identifier : option str) : bool :=
  match identifier with
  | Some s => truthy s
  | None => false
  end.

(** [bool(input_files)] for a tuple. *)
Definition files_truthy (input_files : list str) : bool :=
  match input_files with [] => false | _ => true end.

Definition __new__ (input_files : pyseq) (identifier : option str)
    (property_file : option str) (options : value) : M t :=
  let! input_files := py_tuple input_files in
  let! _ := assert (negb (eqb (files_truthy input_files)
                              (identifier_truthy identifier))) in
  let! options := copy_deepcopy options in
  ret (mk input_files identifier property_file options).

Definition with_files (input_files : pyseq) (property_file : option str)
    (options : value) : M t :=
  __new__ input_files None property_file options.

(** The empty list that [without_files] passes is a new object that
    nothing else refers to. *)
Definition without_files (identifier : option str)
    (property_file : option str) (options : value) : M t :=
  __new__ (SeqTuple []) identifier property_file options.

Definition require_input_files (self : t) : result unit :=
  match input_files_or_empty self with
  | [] => Raise UnsupportedFeatureException
  | _ => Ok tt
  end.

Definition input_files (self : t) : result (list str) :=
  match require_input_files self with
  | Ok _ => Ok (input_files_or_empty self)
  | Raise e => Raise e
  end.

(** [self.input_files_or_empty or tuple(self.identifier)]; [tuple(None)]
    is a [TypeError]. *)
Definition input_files_or_identifier (self : t) : result (list str) :=
  match input_files_or_empty self with
  | [] =>
      match identifier self with
      | Some s => Ok (chars s)
      | None => Raise TypeError
      end
  | files => Ok files
  end.

End Task.

(** [class ResourceLimits] *)

Module ResourceLimits.

Record t := mk {
  cputime : option Z;
  cputime_hard : option Z;
  walltime : option Z;
  memory : option Z;
  cpu_cores : option Z
}.

Definition __new__ (cputime cputime_hard walltime memory cpu_cores : option Z)
    : t :=
  mk cputime cputime_hard walltime memory cpu_cores.

End ResourceLimits.

(** [cmdline(self, executable, options, task, rlimits)] *)
Definition cmdline (executable : str) (options : list str) (task : Task.t)
    (rlimits : ResourceLimits.t) : result (list str) :=
  match Task.input_files_or_identifier task with
  | Ok items => Ok (executable :: options ++ items)
  | Raise e => Raise e
  end.

End BaseTool2.

(** *** [class BaseTool] *)

Module BaseTool.

(** No method is abstract, and the metaclass is [type]. *)
Definition abstract_methods : list method := [].

(** [name(self)] *)
Definition name : result str := Ok (lit "UNKOWN").

(** [_version_from_tool], with the same body as in [BaseTool2]. *)
Definition _version_from_tool := BaseTool2._version_from_tool.

(** [cmdline(self, executable, options, tasks, propertyfile, rlimits)] *)
Definition cmdline (executable : str) (options tasks : list str) : list str :=
  [executable] ++ options ++ tasks.

End BaseTool.

(** ** Tool-info classes

    A tool-info class inherits from one of the two base classes and may
    define [name] and [executable] (here with the string its method
    returns). *)

Module ToolInfo.

Inductive base_class :=
  | inherits_BaseTool2
  | inherits_BaseTool.

Record class := mkClass {
  base : base_class;
  def_name : option str;
  def_executable : option str
}.

Record instance := mkInstance { cls : class }.

Definition defines (c : class) (m : method) : bool :=
  match m with
  | m_name => bool_decide (is_Some (def_name c))
  | m_executable => bool_decide (is_Some (def_executable c))
  end.

(** [cls.__abstractmethods__], as [ABCMeta] computes it when the class
    is created: the abstract methods of the base that the class does
    not define. *)
Definition __abstractmethods__ (c : class) : list method :=
  List.filter (λ m, negb (defines c m))
    match base c with
    | inherits_BaseTool2 => BaseTool2.abstract_methods
    | inherits_BaseTool => BaseTool.abstract_methods
    end.

(** [cls()]: [object.__new__] refuses a class with abstract methods. *)
Definition instantiate (c : class) : result instance :=
  match __abstractmethods__ c with
  | [] => Ok (mkInstance c)
  | _ => Raise TypeError
  end.

(** [self.name()], resolved in the class and then in its base. *)
Definition name (self : instance) : result str :=
  match def_name (cls self) with
  | Some s => Ok s
  | None =>
      match base (cls self) with
      | inherits_BaseTool2 => BaseTool2.name
      | inherits_BaseTool => BaseTool.name
      end
  end.

End ToolInfo.

Import BaseTool2.

(** ** The constructor of [Task] on references

    [Task.t] holds the input files as a value. In the program the field
    holds a reference, and so does the argument of the constructor: to a
    [tuple], which nothing can change once it is made, or to a [list].
    [TaskRef.__new__] is the constructor at this level; the lists and
    containers are those of the store, and the tuples live beside
    them. *)

Inductive pyobj :=
  | ObjTuple (k : addr)
  | ObjList (a : addr).

Record objstore := mkObjStore {
  base : store;
  tuples : list (list str)
}.

Module TaskRef.

Record t := mk {
  input_files_or_empty : pyobj;
  identifier : option str;
  property_file : option str;
  options : value
}.

(** [tuple(input_files)]: a tuple is returned as it is, and for a list a
    new tuple is made of the items that the list holds now. *)
Definition tuple (input_files : pyobj) (os : objstore)
    : option (addr * objstore) :=
  match input_files with
  | ObjTuple k =>
      match tuples os !! k with
      | Some _ => Some (k, os)
      | None => None
      end
  | ObjList a =>
      match lists (base os) !! a with
      | Some items =>
          Some (length (tuples os), mkObjStore (base os) (tuples os ++ [items]))
      | None => None
      end
  end.

Definition __new__ (input_files : pyobj) (identifier : option str)
    (property_file : option str) (options : value) (os : objstore)
    : option (result t * objstore) :=
  match tuple input_files os with
  | None => None
  | Some (k, os1) =>
      match tuples os1 !! k with
      | None => None
      | Some items =>
          if negb (eqb (Task.files_truthy items)
                       (Task.identifier_truthy identifier)) then
            match deepcopy (base os1) options with
            | Some (options', st') =>
                Some (Ok (mk (ObjTuple k) identifier property_file options'),
                      mkObjStore st' (tuples os1))
            | None => None
            end
          else Some (Raise AssertionError, os1)
      end
  end.

End TaskRef.

(** The argument as [Task.__new__] takes it: the items of a tuple, or
    the reference to a list. *)
Definition as_pyseq (os : objstore) (o : pyobj) : option pyseq :=
  match o with
  | ObjTuple k => SeqTuple <$> tuples os !! k
  | ObjList a => Some (SeqList a)
  end.

(** One step of the rest of the program on these stores: a step on the
    lists and containers, or a new tuple. No step changes a tuple. *)
Inductive caller_step (lo hi : addr) : objstore → objstore → Prop :=
  | step_base os st' :
      mutation lo hi (base os) st' →
      caller_step lo hi os (mkObjStore st' (tuples os))
  | step_tuple os items :
      caller_step lo hi os (mkObjStore (base os) (tuples os ++ [items])).

(** ** Vocabulary of the properties *)

(** The three ways in which the version probe gives up. *)
Inductive probe_failure : popen_result → bool → bool → Prop :=
  | launch_failed strerror use_stderr ignore_stderr :
      probe_failure (OSError strerror) use_stderr ignore_stderr
  | ambiguous_stderr stdout stderr returncode :
      stderr ≠ [] →
      probe_failure (Exited stdout stderr returncode) false false
  | nonzero_exit stdout stderr returncode use_stderr ignore_stderr :
      returncode ≠ 0%Z →
      probe_failure (Exited stdout stderr returncode) use_stderr ignore_stderr.

(** The stripped remainder of the first line of [output] that starts with
    [prefix], or the empty string when there is no such line. *)
Definition first_prefixed_line (prefix output : str) : str :=
  match List.find (λ line, startswith line prefix) (splitlines output) with
  | Some line => strip (drop (length prefix) line)
  | None => []
  end.

(** The version that a successful probe is described to extract from the
    trimmed output: by prefix whenever a prefix is given. *)
Definition version_by_prefix_if_given (line_prefix : option str)
    (output : str) : str :=
  match line_prefix with
  | Some prefix => first_prefixed_line prefix output
  | None => output
  end.

(** The same, where an empty prefix counts as no prefix. *)
Definition version_by_nonempty_prefix (line_prefix : option str)
    (output : str) : str :=
  match line_prefix with
  | Some (c :: prefix) => first_prefixed_line (c :: prefix) output
  | _ => output
  end.

(** Bytes of an ASCII text, for concrete runs of the probe. *)
Definition ascii_bytes (s : String.string) : list Byte.byte :=
  byte_of_ascii <$> list_ascii_of_string s.

(** Strict UTF-8, the decoding that [bytes.decode] does when it is given
    no other: a code point from one to four bytes, in its shortest form,
    no surrogate, none above [0x10FFFF]; [None] where the bytes are not
    UTF-8. *)
Definition continuation (b : N) : bool := between 128 191 b.

Fixpoint utf8_points (b : list N) : option (list N) :=
  match b with
  | [] => Some []
  | b0 :: r0 =>
      if (b0 <? 128)%N then cons b0 <$> utf8_points r0
      else if between 194 223 b0 then
        match r0 with
        | b1 :: r1 =>
            if continuation b1
            then cons ((b0 - 192) * 64 + (b1 - 128))%N <$> utf8_points r1
            else None
        | _ => None
        end
      else if between 224 239 b0 then
        match r0 with
        | b1 :: b2 :: r2 =>
            let cp := ((b0 - 224) * 4096 + (b1 - 128) * 64 + (b2 - 128))%N in
            if continuation b1 && continuation b2
               && (2048 <=? cp)%N && negb (between 55296 57343 cp)
            then cons cp <$> utf8_points r2
            else None
        | _ => None
        end
      else if between 240 244 b0 then
        match r0 with
        | b1 :: b2 :: b3 :: r3 =>
            let cp := ((b0 - 240) * 262144 + (b1 - 128) * 4096
                       + (b2 - 128) * 64 + (b3 - 128))%N in
            if continuation b1 && continuation b2 && continuation b3
               && between 65536 1114111 cp
            then cons cp <$> utf8_points r3
            else None
        | _ => None
        end
      else None
  end.

Definition utf8_decode (b : list Byte.byte) : result str :=
  match utf8_points (Byte.to_N <$> b) with
  | Some text => Ok text
  | None => Raise UnicodeDecodeError
  end.

(** [Task.with_files(files).input_files] as one expression. *)
Definition with_files_input_files (files : pyseq) : M (list str) :=
  let! t := Task.with_files files None (VAtom ANone) in
  lift (Task.input_files t).

(** An identifier that is neither [None] nor the empty string. *)
Definition named (identifier : option str) : Prop :=
  ∃ s, identifier = Some s ∧ s ≠ [].

(** Exactly one of: some input file, an identifier. *)
Definition exactly_one (items : list str) (identifier : option str) : Prop :=
  (items ≠ [] ∧ ¬ named identifier) ∨ (items = [] ∧ named identifier).

#[global] Instance named_dec identifier : Decision (named identifier).
Proof.
  destruct identifier as [[|c s]|].
  - right. by intros (s & [= <-] & Hs).
  - left. by exists (c :: s).
  - right. by intros (s & [=] & _).
Defined.

#[global] Instance exactly_one_dec items identifier :
  Decision (exactly_one items identifier).
Proof. unfold exactly_one. apply _. Defined.

(** How a copy relates to its original under a memo: scalars are equal,
    and a reference is answered by the memo. *)
Definition val_rel (memo : gmap addr addr) (v v' : value) : Prop :=
  match v, v' with
  | VAtom a, VAtom b => a = b
  | VRef a, VRef a' => memo !! a = Some a'
  | _, _ => False
  end.

(** The state of a copy in progress. [h0] is the store when the copy
    began and [h] the store now; the containers of the addresses in
    [busy] are allocated but not written yet. *)
Record copy_inv (h0 : list object) (busy : addr → Prop)
    (memo : gmap addr addr) (h : list object) : Prop := mkCopyInv {
  inv_length : length h0 ≤ length h;
  inv_old : ∀ a, a < length h0 → h !! a = h0 !! a;
  inv_range : ∀ a a', memo !! a = Some a' →
    a < length h0 ∧ length h0 ≤ a' < length h;
  inv_inj : ∀ a b a', memo !! a = Some a' → memo !! b = Some a' → a = b;
  inv_done : ∀ a a', memo !! a = Some a' → ¬ busy a →
    ∃ o ys, h0 !! a = Some o ∧ h !! a' = Some (rebuild o ys)
            ∧ Forall2 (val_rel memo) (children o) ys
}.

(** The number of addresses below [n] that are not in the memo. *)
Fixpoint unvisited (memo : gmap addr addr) (n : nat) : nat :=
  match n with
  | 0 => 0
  | S n' =>
      match memo !! n' with Some _ => 0 | None => 1 end + unvisited memo n'
  end.

(** Concrete stores and a concrete tool, for the examples. *)

(** A store with the options [{"args": ["-v"], "self": <the dict>}]. *)
Definition options_store : store :=
  mkStore []
    [ODict [(AStr (lit "args"), VRef 1); (AStr (lit "self"), VRef 0)];
     OList [VAtom (AStr (lit "-v"))]].

(** A store with the list [["a.c", "b.c"]] of the caller. *)
Definition files_store : store := mkStore [[lit "a.c"; lit "b.c"]] [].

(** A tool that prints its version after a banner line. *)
Definition popen_example (executable arg : str) : popen_result :=
  Exited (ascii_bytes "my tool" ++ [Byte.x0a]
          ++ ascii_bytes "tool version 1.2.3" ++ [Byte.x0a]) [] 0.

(** * Properties *)

(** ** Tasks: the accessors *)

Lemma deepcopy_atom st a :
  deepcopy st (VAtom a) = Some (VAtom a, st).
Proof.
  destruct st as [ls h]. unfold deepcopy. cbn. by destruct (length h).
Qed.

Lemma input_files_or_identifier_files (t : Task.t) :
  Task.input_files_or_empty t ≠ [] →
  Task.input_files_or_identifier t = Ok (Task.input_files_or_empty t).
Proof.
  unfold Task.input_files_or_identifier.
  by destruct (Task.input_files_or_empty t).
Qed.

Lemma input_files_or_identifier_name (t : Task.t) s :
  Task.input_files_or_empty t = [] →
  Task.identifier t = Some s →
  Task.input_files_or_identifier t = Ok (chars s).
Proof.
  unfold Task.input_files_or_identifier. by intros -> ->.
Qed.

Lemma input_files_ok (t : Task.t) :
  Task.input_files_or_empty t ≠ [] →
  Task.input_files t = Ok (Task.input_files_or_empty t).
Proof.
  unfold Task.input_files, Task.require_input_files.
  by destruct (Task.input_files_or_empty t).
Qed.

Lemma input_files_unsupported (t : Task.t) :
  Task.input_files_or_empty t = [] →
  Task.input_files t = Raise UnsupportedFeatureException.
Proof.
  unfold Task.input_files, Task.require_input_files. by intros ->.
Qed.

Lemma input_files_inv (t : Task.t) fs :
  Task.input_files t = Ok fs →
  fs = Task.input_files_or_empty t ∧ fs ≠ [].
Proof.
  unfold Task.input_files, Task.require_input_files.
  destruct (Task.input_files_or_empty t) eqn:E; [done|].
  by intros [= <-].
Qed.

(** A task named by a one-character identifier is the only kind for which
    the identifier comes back whole. *)
Lemma chars_singleton s : chars s = [s] ↔ length s = 1.
Proof.
  destruct s as [|c [|c' s]]; cbn; split; try done.
Qed.

(** C1: [Task.without_files("id").input_files_or_identifier] evaluates to
    the two one-character strings [("i", "d")], not to the one-element
    sequence [("id",)] that the accessor is documented to return. *)
Theorem without_files_identifier_split st pf :
  ∃ t, Task.without_files (Some (lit "id")) pf (VAtom ANone) st
         = Some (Ok t, st)
    ∧ Task.input_files_or_identifier t = Ok [lit "i"; lit "d"]
    ∧ Task.input_files_or_identifier t ≠ Ok [lit "id"].
Proof.
  eexists. split.
  - unfold Task.without_files, Task.__new__, bind, py_tuple, copy_deepcopy.
    cbn. rewrite deepcopy_atom. reflexivity.
  - split; [reflexivity | discriminate].
Qed.

(** In general the identifier of a task without files comes back as its
    characters. *)
Lemma without_files_identifier_chars st c s pf :
  ∃ t, Task.without_files (Some (c :: s)) pf (VAtom ANone) st
         = Some (Ok t, st)
    ∧ Task.input_files_or_identifier t = Ok (chars (c :: s)).
Proof.
  exists (Task.mk [] (Some (c :: s)) pf (VAtom ANone)). split; [|done].
  unfold Task.without_files, Task.__new__, bind, py_tuple, copy_deepcopy.
  cbn. by rewrite deepcopy_atom.
Qed.

(** The other half of C1 holds: a task built from a non-empty sequence of
    files gives back exactly these files, in order. *)
Lemma with_files_input_files_or_identifier st st' files pf opts items t :
  tuple st files = Some items →
  items ≠ [] →
  Task.with_files files pf opts st = Some (Ok t, st') →
  Task.input_files_or_identifier t = Ok items.
Proof.
  unfold Task.with_files, Task.__new__, bind, py_tuple, copy_deepcopy.
  intros -> Hne. cbn.
  destruct items as [|f items]; [done|]. cbn.
  destruct (deepcopy st opts) as [[v' st1]|]; [|done].
  by intros [= <- <-].
Qed.

(** ** Resource limits *)

(** C2: the constructor of [ResourceLimits] checks nothing: a soft CPU-time
    limit without a hard one is constructed, and so is a hard limit below
    the soft one. *)
Theorem ResourceLimits_unpaired_constructed :
  let r1 := ResourceLimits.__new__ (Some 10%Z) None None None None in
  let r2 := ResourceLimits.__new__ (Some 10%Z) (Some 5%Z) None None None in
  ResourceLimits.cputime r1 = Some 10%Z
  ∧ ResourceLimits.cputime_hard r1 = None
  ∧ ResourceLimits.cputime r2 = Some 10%Z
  ∧ ResourceLimits.cputime_hard r2 = Some 5%Z.
Proof. repeat split. Qed.

(** ** The default command line *)

(** C5: for a task with input files, the default command line is the
    executable, then the options in their order, then the input files. *)
Theorem cmdline_file_task exe (opts : list str) (t : Task.t) rl fs :
  Task.input_files t = Ok fs →
  cmdline exe opts t rl = Ok ([exe] ++ opts ++ fs).
Proof.
  intros [-> Hne]%input_files_inv.
  unfold cmdline. by rewrite input_files_or_identifier_files.
Qed.

Lemma cmdline_file_task_witness :
  let t := Task.mk [lit "a.c"; lit "b.c"] None None (VAtom ANone) in
  let rl := ResourceLimits.__new__ None None None None None in
  Task.input_files t = Ok [lit "a.c"; lit "b.c"]
  ∧ cmdline (lit "tool") [lit "-x"; lit "-y"] t rl
    = Ok [lit "tool"; lit "-x"; lit "-y"; lit "a.c"; lit "b.c"].
Proof.
  split; [reflexivity|].
  exact (cmdline_file_task (lit "tool") [lit "-x"; lit "-y"]
           (Task.mk [lit "a.c"; lit "b.c"] None None (VAtom ANone))
           (ResourceLimits.__new__ None None None None None)
           [lit "a.c"; lit "b.c"] eq_refl).
Defined.

(** ** Deep copies *)

Lemma val_rel_weaken memo memo' v v' :
  memo ⊆ memo' → val_rel memo v v' → val_rel memo' v v'.
Proof.
  intros Hsub. destruct v, v'; cbn; try done.
  intros H. by eapply lookup_weaken.
Qed.

Lemma unvisited_mono memo memo' n :
  memo ⊆ memo' → unvisited memo' n ≤ unvisited memo n.
Proof.
  intros Hsub. induction n as [|n IH]; cbn; [done|].
  destruct (memo !! n) eqn:E.
  - by rewrite (lookup_weaken _ _ _ _ E Hsub).
  - destruct (memo' !! n); lia.
Qed.

Lemma unvisited_insert memo n a a' :
  a < n → memo !! a = None →
  unvisited (<[a:=a']> memo) n < unvisited memo n.
Proof.
  intros Hlt Hnone. induction n as [|n IH]; cbn; [lia|].
  destruct (decide (a = n)) as [->|Hne].
  - rewrite lookup_insert_eq, Hnone.
    pose proof (unvisited_mono memo (<[n:=a']> memo) n
                  (insert_subseteq _ _ _ Hnone)). lia.
  - rewrite lookup_insert_ne by done.
    assert (a < n) as Hlt' by lia. specialize (IH Hlt').
    destruct (memo !! n); lia.
Qed.

Lemma unvisited_le memo n : unvisited memo n ≤ n.
Proof. induction n as [|n IH]; cbn; [done|]. destruct (memo !! n); lia. Qed.

Section copy_correct.

Variable h0 : list object.
Hypothesis h0_ok : heap_ok h0.

Ltac inv_some :=
  repeat match goal with
  | H : match ?x with Some _ => _ | None => None end = Some _ |- _ =>
      let E := fresh "E" in destruct x as [[[? ?] ?]|] eqn:E; [|done]
  | H : Some _ = Some _ |- _ => injection H as ? ? ?; subst
  end.

(** The first step of copying the object at [a]: allocate the new
    container and enter it in the memo. *)
Lemma copy_inv_begin busy memo h a o :
  copy_inv h0 busy memo h →
  a < length h0 → memo !! a = None →
  copy_inv h0 (λ x, busy x ∨ x = a) (<[a:=length h]> memo)
    (h ++ [rebuild o []]).
Proof.
  intros [Hlen Hold Hrange Hinj Hdone] Ha Hnone.
  assert (memo ⊆ <[a:=length h]> memo) as Hsub
    by by apply insert_subseteq.
  split.
  - rewrite length_app. lia.
  - intros b Hb. rewrite lookup_app_l by lia. by apply Hold.
  - intros b b' Hb. rewrite length_app. cbn.
    destruct (decide (a = b)) as [<-|Hne].
    + rewrite lookup_insert_eq in Hb. injection Hb as <-. lia.
    + rewrite lookup_insert_ne in Hb by done.
      apply Hrange in Hb. lia.
  - intros b c b' Hb Hc.
    destruct (decide (a = b)) as [<-|Hnb];
      destruct (decide (a = c)) as [<-|Hnc]; try done.
    + rewrite lookup_insert_eq in Hb. injection Hb as <-.
      rewrite lookup_insert_ne in Hc by done. apply Hrange in Hc. lia.
    + rewrite lookup_insert_eq in Hc. injection Hc as <-.
      rewrite lookup_insert_ne in Hb by done. apply Hrange in Hb. lia.
    + rewrite lookup_insert_ne in Hb, Hc by done. by eapply Hinj.
  - intros b b' Hb Hbusy.
    destruct (decide (a = b)) as [<-|Hne]; [by destruct Hbusy; right|].
    rewrite lookup_insert_ne in Hb by done.
    destruct (Hdone b b' Hb) as (o' & ys & Ho & Hb' & Hrel);
      [by intros ?; apply Hbusy; left|].
    exists o', ys. split; [done|]. split.
    + rewrite lookup_app_l; [done|]. apply Hrange in Hb. lia.
    + eapply Forall2_impl; [exact Hrel|].
      intros ??. by apply val_rel_weaken.
Qed.

(** The last step: write the copied items into the new container. *)
Lemma copy_inv_end busy memo h a a' o ys :
  copy_inv h0 (λ x, busy x ∨ x = a) memo h →
  memo !! a = Some a' → h0 !! a = Some o →
  Forall2 (val_rel memo) (children o) ys →
  copy_inv h0 busy memo (<[a':=rebuild o ys]> h).
Proof.
  intros [Hlen Hold Hrange Hinj Hdone] Ha Ho Hrel.
  pose proof (Hrange _ _ Ha) as Hra.
  split.
  - by rewrite length_insert.
  - intros b Hb. rewrite list_lookup_insert_ne by lia. by apply Hold.
  - intros b b' Hb. rewrite length_insert. by apply Hrange.
  - done.
  - intros b b' Hb Hbusy.
    destruct (decide (a = b)) as [<-|Hne].
    + rewrite Ha in Hb. injection Hb as <-.
      exists o, ys. split; [done|]. split; [|done].
      apply list_lookup_insert_eq. lia.
    + destruct (Hdone b b' Hb) as (o' & ys' & Ho' & Hb' & Hrel');
        [by intros [?|?]|].
      exists o', ys'. split; [done|]. split; [|done].
      rewrite list_lookup_insert_ne; [done|].
      intros <-. apply Hne. by eapply Hinj.
Qed.

Lemma deepcopy_items_inv cp :
  (∀ busy memo h v memo' h' v',
     cp memo h v = Some (memo', h', v') →
     value_ok (length h0) v → copy_inv h0 busy memo h →
     copy_inv h0 busy memo' h' ∧ memo ⊆ memo' ∧ val_rel memo' v v') →
  ∀ busy xs memo h memo' h' ys,
    deepcopy_items cp memo h xs = Some (memo', h', ys) →
    Forall (value_ok (length h0)) xs → copy_inv h0 busy memo h →
    copy_inv h0 busy memo' h' ∧ memo ⊆ memo'
    ∧ Forall2 (val_rel memo') xs ys.
Proof.
  intros Hcp busy xs.
  induction xs as [|x xs IH]; intros memo h memo' h' ys Hrun Hok Hinv.
  - cbn in Hrun. injection Hrun as <- <- <-.
    split; [done|]. split; [done|constructor].
  - cbn in Hrun. inv_some.
    apply Forall_cons in Hok as [Hx Hxs].
    destruct (Hcp _ _ _ _ _ _ _ E Hx Hinv) as (Hinv1 & Hsub1 & Hrel1).
    destruct (IH _ _ _ _ _ E0 Hxs Hinv1) as (Hinv2 & Hsub2 & Hrel2).
    split; [done|]. split; [by etrans|].
    constructor; [|done]. by eapply val_rel_weaken.
Qed.

Lemma deepcopy_memo_inv fuel :
  ∀ busy memo h v memo' h' v',
    deepcopy_memo fuel memo h v = Some (memo', h', v') →
    value_ok (length h0) v → copy_inv h0 busy memo h →
    copy_inv h0 busy memo' h' ∧ memo ⊆ memo' ∧ val_rel memo' v v'.
Proof.
  induction fuel as [|fuel IH]; intros busy memo h v memo' h' v' Hrun Hv Hinv;
    destruct v as [x|a]; cbn in Hrun.
  - by injection Hrun as <- <- <-.
  - destruct (memo !! a) as [a'|] eqn:Ea; [|done].
    by injection Hrun as <- <- <-.
  - by injection Hrun as <- <- <-.
  - destruct (memo !! a) as [a'|] eqn:Ea.
    { by injection Hrun as <- <- <-. }
    destruct (h !! a) as [o|] eqn:Eo; [|done].
    inv_some. cbn in Hv.
    assert (h0 !! a = Some o) as Eo0 by by rewrite <- (inv_old _ _ _ _ Hinv).
    pose proof (copy_inv_begin busy memo h a o Hinv Hv Ea) as Hinv1.
    destruct (deepcopy_items_inv _ (IH) _ _ _ _ _ _ _ E
                (h0_ok _ _ Eo0) Hinv1) as (Hinv2 & Hsub2 & Hrel2).
    assert (memo' !! a = Some (length h)) as Ea'.
    { eapply lookup_weaken; [|exact Hsub2]. apply lookup_insert_eq. }
    split; [by eapply copy_inv_end|]. split; [|done].
    etrans; [|exact Hsub2]. by apply insert_subseteq.
Qed.

(** Fuel: copying never stops short when there is one unit of fuel
    for each address the memo does not hold yet. *)
Lemma deepcopy_items_total cp m :
  (∀ busy memo h v memo' h' v',
     cp memo h v = Some (memo', h', v') →
     value_ok (length h0) v → copy_inv h0 busy memo h →
     copy_inv h0 busy memo' h' ∧ memo ⊆ memo' ∧ val_rel memo' v v') →
  (∀ busy memo h v,
     value_ok (length h0) v → copy_inv h0 busy memo h →
     unvisited memo (length h0) ≤ m → is_Some (cp memo h v)) →
  ∀ busy xs memo h,
    Forall (value_ok (length h0)) xs → copy_inv h0 busy memo h →
    unvisited memo (length h0) ≤ m →
    is_Some (deepcopy_items cp memo h xs).
Proof.
  intros Hinv_cp Htot busy xs.
  induction xs as [|x xs IH]; intros memo h Hok Hinv Hm; cbn; [by eexists|].
  apply Forall_cons in Hok as [Hx Hxs].
  destruct (Htot busy memo h x Hx Hinv Hm) as [[[memo1 h1] y] E].
  rewrite E.
  destruct (Hinv_cp _ _ _ _ _ _ _ E Hx Hinv) as (Hinv1 & Hsub1 & _).
  destruct (IH memo1 h1 Hxs Hinv1) as [[[memo2 h2] ys] E2].
  { pose proof (unvisited_mono _ _ (length h0) Hsub1). lia. }
  rewrite E2. by eexists.
Qed.

Lemma deepcopy_memo_total fuel :
  ∀ busy memo h v,
    value_ok (length h0) v → copy_inv h0 busy memo h →
    unvisited memo (length h0) ≤ fuel →
    is_Some (deepcopy_memo fuel memo h v).
Proof.
  induction fuel as [|fuel IH]; intros busy memo h v Hv Hinv Hfuel;
    destruct v as [x|a]; cbn; try by eexists.
  - destruct (memo !! a) as [a'|] eqn:Ea; [by eexists|].
    cbn in Hv.
    pose proof (unvisited_insert memo _ a 0 Hv Ea). lia.
  - destruct (memo !! a) as [a'|] eqn:Ea; [by eexists|].
    cbn in Hv.
    destruct (lookup_lt_is_Some_2 h0 a Hv) as [o Eo0].
    rewrite (inv_old _ _ _ _ Hinv a Hv), Eo0.
    pose proof (copy_inv_begin busy memo h a o Hinv Hv Ea) as Hinv1.
    destruct (deepcopy_items_total (deepcopy_memo fuel) fuel
                (deepcopy_memo_inv fuel) IH _ (children o) _ _
                (h0_ok _ _ Eo0) Hinv1) as [[[memo' h'] ys] E].
    { pose proof (unvisited_insert memo _ a (length h) Hv Ea). lia. }
    rewrite E. by eexists.
Qed.

End copy_correct.

(** A finished copy looks like its original, in every store that agrees
    with the store of the copy on the new containers. *)
Lemma view_copy h0 memo h1 h2 :
  copy_inv h0 (λ _, False) memo h1 →
  (∀ a, length h0 ≤ a < length h1 → h2 !! a = h1 !! a) →
  ∀ n v v', val_rel memo v v' → view n h2 v' = view n h0 v.
Proof.
  intros Hinv Hsame. induction n as [|n IH]; intros v v' Hrel;
    destruct v as [x|a], v' as [x'|a']; cbn in Hrel; try done; cbn;
    try by subst.
  destruct (inv_done _ _ _ _ Hinv a a' Hrel) as (o & ys & Ho & Ho' & Hrels);
    [tauto|].
  rewrite Hsame by (by eapply inv_range). rewrite Ho, Ho'.
  assert (Forall2 (λ x y, view n h2 y = view n h0 x) (children o) ys) as Hv.
  { eapply Forall2_impl; [exact Hrels|]. intros ??. apply IH. }
  clear -Hv. destruct o as [xs|kvs]; cbn in *.
  - f_equal. induction Hv; cbn; [done|]. by f_equal.
  - f_equal. revert ys Hv. induction kvs as [|[k x] kvs IHk]; intros ys Hv.
    + done.
    + cbn in Hv. apply Forall2_cons_inv_l in Hv as (y & ys' & Hy & Hys & ->).
      cbn. f_equal; [by rewrite Hy|]. by apply IHk.
Qed.

(** Code that does not hold the containers at [lo .. hi-1] leaves them as
    they are. *)
Lemma mutations_frame lo hi st st' :
  mutations lo hi st st' →
  hi ≤ length (objects st) →
  hi ≤ length (objects st')
  ∧ ∀ a, lo ≤ a < hi → objects st' !! a = objects st !! a.
Proof.
  induction 1 as [st|st st1 st2 Hstep _ IH]; intros Hhi; [done|].
  assert (hi ≤ length (objects st1)
          ∧ ∀ a, lo ≤ a < hi → objects st1 !! a = objects st !! a)
    as [Hhi1 Hsame1].
  { destruct Hstep as [st a items|st items|st a o Hout|st o]; cbn.
    - done.
    - done.
    - rewrite length_insert. split; [done|].
      intros b Hb. apply list_lookup_insert_ne. intros ->. tauto.
    - rewrite length_app. split; [lia|].
      intros b Hb. apply lookup_app_l. lia. }
  destruct (IH Hhi1) as [Hhi2 Hsame2].
  split; [done|]. intros a Ha. rewrite Hsame2 by done. by apply Hsame1.
Qed.

(** [copy.deepcopy] on a well-formed store: it returns, the store it
    leaves only has new containers at its end, and the copy looks like
    the original did, whatever is done later to the containers that were
    there before the copy or are made after it. *)
Lemma deepcopy_spec st v :
  heap_ok (objects st) → value_ok (length (objects st)) v →
  ∃ v' st',
    deepcopy st v = Some (v', st')
    ∧ lists st' = lists st
    ∧ length (objects st) ≤ length (objects st')
    ∧ ∀ st'' n,
        mutations (length (objects st)) (length (objects st')) st' st'' →
        view n (objects st'') v' = view n (objects st) v.
Proof.
  intros Hok Hv. destruct st as [ls h0]. cbn in *.
  assert (copy_inv h0 (λ _, False) ∅ h0) as Hinv0.
  { by split. }
  destruct (deepcopy_memo_total h0 Hok (length h0) _ ∅ h0 v Hv Hinv0
              (unvisited_le _ _)) as [[[memo' h'] v'] E].
  destruct (deepcopy_memo_inv h0 Hok _ _ _ _ _ _ _ _ E Hv Hinv0)
    as (Hinv & _ & Hrel).
  exists v', (mkStore ls h'). unfold deepcopy. cbn. rewrite E.
  split; [done|]. split; [done|]. split; [by apply (inv_length _ _ _ _ Hinv)|].
  intros st'' n Hmut.
  apply mutations_frame in Hmut as [_ Hsame]; [|done].
  by eapply view_copy.
Qed.

(** ** Tasks: construction *)

Lemma exactly_one_bool items identifier :
  negb (eqb (Task.files_truthy items) (Task.identifier_truthy identifier))
    = true
  ↔ exactly_one items identifier.
Proof.
  unfold exactly_one, named. split.
  - destruct items as [|f items], identifier as [[|c s]|]; cbn;
      intros Hb; try discriminate.
    + right. split; [done|]. by exists (c :: s).
    + left. split; [done|]. by intros (s & [= <-] & Hs).
    + left. split; [done|]. by intros (s & [=] & _).
  - intros [[Hf Hn]|[-> (s & -> & Hs)]].
    + destruct items as [|f items]; [done|].
      destruct identifier as [[|c s]|]; cbn; try done.
      destruct Hn. by exists (c :: s).
    + by destruct s.
Qed.

Lemma Task_new_run st files identifier pf opts items :
  tuple st files = Some items →
  Task.__new__ files identifier pf opts st =
    if negb (eqb (Task.files_truthy items)
                 (Task.identifier_truthy identifier))
    then match deepcopy st opts with
         | Some (opts', st') =>
             Some (Ok (Task.mk items identifier pf opts'), st')
         | None => None
         end
    else Some (Raise AssertionError, st).
Proof.
  intros Hitems.
  unfold Task.__new__, bind, py_tuple, assert, copy_deepcopy, ret, raise.
  rewrite Hitems.
  destruct (negb _); [|done].
  by destruct (deepcopy st opts) as [[opts' st']|].
Qed.

(** C3 as stated fails: [Task.with_files([]).input_files] never reaches the
    accessor, the constructor already fails its assertion. *)
Lemma with_files_empty_raises_assertion :
  with_files_input_files (SeqTuple []) empty
    = Some (Raise AssertionError, empty)
  ∧ with_files_input_files (SeqTuple []) empty
    ≠ Some (Raise UnsupportedFeatureException, empty).
Proof. split; [reflexivity | discriminate]. Qed.

(** C3, amended: [Task.with_files(files).input_files] fails the assertion
    of the constructor when [files] is empty and returns the files as a
    tuple otherwise (so [("a",)] for [["a"]]); every task without files,
    such as the one [without_files] builds for an identifier, answers
    [input_files] with the unsupported-feature exception. *)
Theorem input_files_of_tasks st files items :
  tuple st files = Some items →
  with_files_input_files files st
    = Some (match items with
            | [] => Raise AssertionError
            | _ => Ok items
            end, st)
  ∧ (∀ identifier pf opts,
       Task.input_files (Task.mk [] identifier pf opts)
         = Raise UnsupportedFeatureException)
  ∧ (∀ c s pf,
       ∃ t, Task.without_files (Some (c :: s)) pf (VAtom ANone) st
              = Some (Ok t, st)
         ∧ Task.input_files t = Raise UnsupportedFeatureException).
Proof.
  intros Hitems. split; [|split].
  - unfold with_files_input_files, Task.with_files, bind.
    rewrite (Task_new_run _ _ _ _ _ _ Hitems), deepcopy_atom.
    by destruct items.
  - done.
  - intros c s pf.
    exists (Task.mk [] (Some (c :: s)) pf (VAtom ANone)).
    split; [|done]. unfold Task.without_files.
    by rewrite (Task_new_run st (SeqTuple []) _ _ _ [] eq_refl),
      deepcopy_atom.
Qed.

Lemma input_files_of_tasks_witness :
  with_files_input_files (SeqTuple [lit "a"]) empty
    = Some (Ok [lit "a"], empty).
Proof.
  exact (proj1 (input_files_of_tasks empty (SeqTuple [lit "a"]) [lit "a"]
                  eq_refl)).
Defined.

(** C4 as stated fails: a task is constructed from a file together with
    the empty string as identifier, which is not [None]. *)
Lemma Task_with_files_and_empty_identifier :
  let t := Task.mk [lit "a"] (Some []) None (VAtom ANone) in
  Task.__new__ (SeqTuple [lit "a"]) (Some []) None (VAtom ANone) empty
    = Some (Ok t, empty)
  ∧ Task.input_files_or_empty t ≠ []
  ∧ Task.identifier t ≠ None.
Proof. by repeat split. Qed.

(** C4, amended: in every constructed task exactly one of these holds:
    there are input files, the identifier is neither [None] nor the empty
    string. On a well-formed store the constructor returns such a task
    when exactly one holds for its arguments, and fails its assertion
    when both or neither do. *)
Theorem Task_new_exactly_one st files identifier pf opts items :
  tuple st files = Some items →
  heap_ok (objects st) → value_ok (length (objects st)) opts →
  (∀ t st', Task.__new__ files identifier pf opts st = Some (Ok t, st') →
     exactly_one (Task.input_files_or_empty t) (Task.identifier t))
  ∧ if decide (exactly_one items identifier)
    then ∃ t st', Task.__new__ files identifier pf opts st = Some (Ok t, st')
           ∧ Task.input_files_or_empty t = items
           ∧ Task.identifier t = identifier
    else Task.__new__ files identifier pf opts st
           = Some (Raise AssertionError, st).
Proof.
  intros Hitems Hok Hopts.
  rewrite (Task_new_run _ _ _ _ _ _ Hitems).
  destruct (negb _) eqn:Hb.
  - apply exactly_one_bool in Hb.
    destruct (deepcopy_spec st opts Hok Hopts) as (v' & st1 & -> & _).
    split.
    + by intros t st' [= <- <-].
    + destruct (decide _); [|done]. by eexists _, _.
  - split; [done|].
    destruct (decide _) as [Hone|]; [|done].
    apply exactly_one_bool in Hone. congruence.
Qed.

Lemma heap_ok_nil : heap_ok [].
Proof. intros a o Ha. destruct a; discriminate Ha. Defined.

Lemma Task_new_exactly_one_witness :
  (∀ t st',
     Task.__new__ (SeqTuple [lit "a.c"]) None None (VAtom ANone) empty
       = Some (Ok t, st') →
     exactly_one (Task.input_files_or_empty t) (Task.identifier t))
  ∧ ∃ t st',
      Task.__new__ (SeqTuple [lit "a.c"]) None None (VAtom ANone) empty
        = Some (Ok t, st')
      ∧ Task.input_files_or_empty t = [lit "a.c"]
      ∧ Task.identifier t = None.
Proof.
  exact (Task_new_exactly_one empty (SeqTuple [lit "a.c"]) None None
           (VAtom ANone) [lit "a.c"] eq_refl heap_ok_nil I).
Defined.

(** C8: the options of a task are a deep copy. On a well-formed store
    the constructor returns a task whose options look as the argument
    looked when the task was constructed, whatever is done afterwards to
    the containers that existed then or are made later. *)
Theorem Task_options_deepcopied st files identifier pf opts items :
  tuple st files = Some items →
  exactly_one items identifier →
  heap_ok (objects st) → value_ok (length (objects st)) opts →
  ∃ t st',
    Task.__new__ files identifier pf opts st = Some (Ok t, st')
    ∧ ∀ st'' n,
        mutations (length (objects st)) (length (objects st')) st' st'' →
        view n (objects st'') (Task.options t) = view n (objects st) opts.
Proof.
  intros Hitems Hone Hok Hopts.
  rewrite (Task_new_run _ _ _ _ _ _ Hitems).
  apply exactly_one_bool in Hone as ->.
  destruct (deepcopy_spec st opts Hok Hopts) as (v' & st1 & -> & _ & _ & Hv).
  by eexists _, _.
Qed.

Lemma options_store_ok : heap_ok (objects options_store).
Proof.
  intros a o Ha. destruct a as [|[|a]]; cbn in Ha; [| |discriminate Ha];
    injection Ha as <-; cbn; repeat constructor.
Defined.

Lemma Task_options_deepcopied_witness :
  ∃ t st',
    Task.__new__ (SeqTuple [lit "a.c"]) None None (VRef 0) options_store
      = Some (Ok t, st')
    ∧ ∀ st'' n,
        mutations 2 (length (objects st')) st' st'' →
        view n (objects st'') (Task.options t)
          = view n (objects options_store) (VRef 0).
Proof.
  refine (Task_options_deepcopied options_store (SeqTuple [lit "a.c"])
            None None (VRef 0) [lit "a.c"] eq_refl _ options_store_ok _).
  - left. split; [discriminate|]. intros (s & Hs & _). discriminate Hs.
  - cbn. lia.
Defined.

(** After the caller empties the list under ["args"], the original shows
    the change and the options of the task do not. *)
Lemma Task_options_after_mutation :
  let st' := mkStore []
    (objects options_store ++
     [ODict [(AStr (lit "args"), VRef 3); (AStr (lit "self"), VRef 2)];
      OList [VAtom (AStr (lit "-v"))]]) in
  let st'' := mkStore [] (<[1:=OList []]> (objects st')) in
  Task.__new__ (SeqTuple [lit "a.c"]) None None (VRef 0) options_store
    = Some (Ok (Task.mk [lit "a.c"] None None (VRef 2)), st')
  ∧ mutations 2 4 st' st''
  ∧ view 2 (objects st'') (VRef 2) = view 2 (objects options_store) (VRef 0)
  ∧ view 2 (objects st'') (VRef 0) ≠ view 2 (objects options_store) (VRef 0).
Proof.
  intros st' st''.
  split; [reflexivity|]. split; [|split; [reflexivity|discriminate]].
  apply rtc_once. apply (mut_object 2 4 st' 1 (OList [])). lia.
Qed.

(** A tuple that exists stays as it is, whatever the rest of the program
    does. *)
Lemma caller_steps_tuples lo hi os os' k items :
  rtc (caller_step lo hi) os os' →
  tuples os !! k = Some items → tuples os' !! k = Some items.
Proof.
  induction 1 as [os|os os1 os2 Hstep _ IH]; [done|].
  intros Hk. apply IH. destruct Hstep as [os st' _|os items']; cbn; [done|].
  by apply lookup_app_l_Some.
Qed.

Lemma TaskRef_new_inv os os' files identifier pf opts t :
  TaskRef.__new__ files identifier pf opts os = Some (Ok t, os') →
  ∃ k os1 items opts',
    TaskRef.tuple files os = Some (k, os1)
    ∧ tuples os1 !! k = Some items
    ∧ exactly_one items identifier
    ∧ deepcopy (base os1) opts = Some (opts', base os')
    ∧ tuples os' = tuples os1
    ∧ t = TaskRef.mk (ObjTuple k) identifier pf opts'.
Proof.
  unfold TaskRef.__new__.
  destruct (TaskRef.tuple files os) as [[k os1]|]; [|done].
  destruct (tuples os1 !! k) as [items|] eqn:Hk; [|done].
  destruct (negb _) eqn:Hb; [|done].
  destruct (deepcopy (base os1) opts) as [[opts' st']|] eqn:Hcopy; [|done].
  intros [= <- <-]. exists k, os1, items, opts'.
  by rewrite <- exactly_one_bool.
Qed.

(** C10: the constructor stores a reference to a tuple, whatever kind of
    sequence it is given. The tuple holds the items that the given list
    or tuple holds when the task is constructed, in their order, and it
    holds them after every later step of the rest of the program, such
    as a change of the list. The task with these items is the one that
    [Task.__new__] constructs. *)
Theorem Task_input_files_tuple os os' files identifier pf opts t items :
  match files with
  | ObjList a => lists (base os) !! a = Some items
  | ObjTuple k => tuples os !! k = Some items
  end →
  TaskRef.__new__ files identifier pf opts os = Some (Ok t, os') →
  ∃ k, TaskRef.input_files_or_empty t = ObjTuple k
    ∧ (∀ lo hi os'',
         rtc (caller_step lo hi) os' os'' → tuples os'' !! k = Some items)
    ∧ ∃ seq, as_pyseq os files = Some seq
        ∧ Task.__new__ seq identifier pf opts (base os)
          = Some (Ok (Task.mk items identifier pf (TaskRef.options t)),
                  base os').
Proof.
  intros Hfiles
    (k & os1 & items1 & opts' & Htuple & Hk & Hone & Hcopy & Htuples & ->)
      %TaskRef_new_inv.
  exists k. split; [done|].
  apply exactly_one_bool in Hone. unfold TaskRef.tuple in Htuple.
  destruct files as [k0|a].
  - rewrite Hfiles in Htuple. injection Htuple as <- <-.
    rewrite Hfiles in Hk. injection Hk as <-. split.
    + intros lo hi os'' Hsteps.
      eapply caller_steps_tuples; [exact Hsteps|]. by rewrite Htuples.
    + exists (SeqTuple items).
      split; [unfold as_pyseq; by rewrite Hfiles|].
      rewrite (Task_new_run _ (SeqTuple items) _ _ _ items eq_refl).
      by rewrite Hone, Hcopy.
  - rewrite Hfiles in Htuple. injection Htuple as <- <-. cbn in *.
    rewrite lookup_app_r, Nat.sub_diag in Hk by done.
    injection Hk as <-. split.
    + intros lo hi os'' Hsteps.
      eapply caller_steps_tuples; [exact Hsteps|]. rewrite Htuples.
      by rewrite lookup_app_r, Nat.sub_diag.
    + exists (SeqList a). split; [done|].
      rewrite (Task_new_run _ (SeqList a) _ _ _ items Hfiles).
      by rewrite Hone, Hcopy.
Qed.

Lemma Task_input_files_tuple_witness :
  ∃ k, ObjTuple 0 = ObjTuple k
    ∧ (∀ lo hi os'',
         rtc (caller_step lo hi)
           (mkObjStore files_store [[lit "a.c"; lit "b.c"]]) os'' →
         tuples os'' !! k = Some [lit "a.c"; lit "b.c"])
    ∧ ∃ seq, as_pyseq (mkObjStore files_store []) (ObjList 0) = Some seq
        ∧ Task.__new__ seq None None (VAtom ANone) files_store
          = Some (Ok (Task.mk [lit "a.c"; lit "b.c"] None None (VAtom ANone)),
                  files_store).
Proof.
  exact (Task_input_files_tuple (mkObjStore files_store [])
           (mkObjStore files_store [[lit "a.c"; lit "b.c"]])
           (ObjList 0) None None (VAtom ANone)
           (TaskRef.mk (ObjTuple 0) None None (VAtom ANone))
           [lit "a.c"; lit "b.c"] eq_refl eq_refl).
Defined.

(** After the caller replaces the items of its list, the list shows the
    change and the task does not. *)
Lemma Task_input_files_after_mutation :
  let t := Task.mk [lit "a.c"; lit "b.c"] None None (VAtom ANone) in
  let st'' := mkStore (<[0:=[lit "x.c"]]> (lists files_store)) [] in
  Task.__new__ (SeqList 0) None None (VAtom ANone) files_store
    = Some (Ok t, files_store)
  ∧ mutations 0 0 files_store st''
  ∧ tuple st'' (SeqList 0) = Some [lit "x.c"]
  ∧ Task.input_files t = Ok [lit "a.c"; lit "b.c"].
Proof.
  intros t st''.
  split; [reflexivity|]. split; [|by split].
  apply rtc_once. apply (mut_list 0 0 files_store 0 [lit "x.c"]).
Qed.

(** The same on references: the list of the caller reads differently
    after the change, and the tuple of the task reads as before. *)
Lemma TaskRef_input_files_after_mutation :
  let os' := mkObjStore files_store [[lit "a.c"; lit "b.c"]] in
  let os'' :=
    mkObjStore (mkStore (<[0:=[lit "x.c"]]> (lists files_store)) []) (tuples os')
  in
  TaskRef.__new__ (ObjList 0) None None (VAtom ANone)
    (mkObjStore files_store [])
    = Some (Ok (TaskRef.mk (ObjTuple 0) None None (VAtom ANone)), os')
  ∧ rtc (caller_step 0 0) os' os''
  ∧ lists (base os'') !! 0 = Some [lit "x.c"]
  ∧ tuples os'' !! 0 = Some [lit "a.c"; lit "b.c"].
Proof.
  intros os' os''. split; [reflexivity|]. split; [|by split].
  apply rtc_once. apply (step_base 0 0 os').
  apply (mut_list 0 0 files_store 0 [lit "x.c"]).
Qed.

(** ** The version probe *)

Section probe_facts.

Variable popen : str → str → popen_result.
Variable decode_to_string : list Byte.byte → result str.

(** C6: the probe does raise in one of the cases in which it should give
    up: when there is error output that was neither asked for nor to be
    ignored and that cannot be decoded, the exception of the decoder
    leaves the probe, and no warning is logged. *)
Theorem version_probe_undecodable_stderr exe arg line_prefix
    stdout stderr returncode e :
  popen exe arg = Exited stdout stderr returncode →
  stderr ≠ [] →
  decode_to_string stderr = Raise e →
  _version_from_tool popen decode_to_string exe arg false false line_prefix
  = (Raise e, []).
Proof.
  intros Hrun Herr Hdecode. unfold _version_from_tool. rewrite Hrun.
  destruct stderr; [done|]. cbn. by rewrite Hdecode.
Qed.

(** Where the error output can be decoded, the three cases go as they
    should: the probe returns the empty string and logs one warning. *)
Lemma version_probe_failure_decoded exe arg use_stderr ignore_stderr
    line_prefix :
  probe_failure (popen exe arg) use_stderr ignore_stderr →
  (∀ stdout stderr returncode,
     popen exe arg = Exited stdout stderr returncode →
     ∃ text, decode_to_string stderr = Ok text) →
  ∃ w, _version_from_tool popen decode_to_string exe arg
         use_stderr ignore_stderr line_prefix = (Ok [], [w]).
Proof.
  unfold _version_from_tool. intros Hfail Hdecode.
  destruct (popen exe arg) as [strerror|out err rc|e]; [by eexists| |].
  - destruct (Hdecode out err rc eq_refl) as [text Htext].
    destruct (bytes_truthy err && negb use_stderr && negb ignore_stderr)
      eqn:Hamb.
    { rewrite Htext. by eexists. }
    inversion Hfail as [| ? ? ? Herr | ? ? ? ? ? Hrc]; subst.
    + by destruct err.
    + unfold int_truthy. destruct (Z.eqb_spec rc 0); [done|]. by eexists.
  - inversion Hfail.
Qed.

Lemma next_matches prefix output :
  next_or_empty (matches prefix output) = first_prefixed_line prefix output.
Proof.
  unfold matches, first_prefixed_line.
  induction (splitlines output) as [|line lines IH]; cbn; [done|].
  by destruct (startswith line prefix).
Qed.

(** C7, amended: a probe that exits with code zero without ambiguous
    error output, and whose chosen stream can be decoded, returns, from
    the stripped text of that stream, the stripped remainder of the first
    line that starts with a given non-empty prefix (the empty string when
    no line does), and the whole stripped text when the prefix is [None]
    or empty. *)
Theorem version_probe_success exe arg use_stderr ignore_stderr line_prefix
    stdout stderr text :
  popen exe arg = Exited stdout stderr 0 →
  stderr = [] ∨ use_stderr = true ∨ ignore_stderr = true →
  decode_to_string (if use_stderr then stderr else stdout) = Ok text →
  _version_from_tool popen decode_to_string exe arg
    use_stderr ignore_stderr line_prefix
  = (Ok (version_by_nonempty_prefix line_prefix (strip text)), []).
Proof.
  intros Hrun Hclean Htext. unfold _version_from_tool. rewrite Hrun.
  assert (bytes_truthy stderr && negb use_stderr && negb ignore_stderr
          = false) as ->.
  { destruct Hclean as [->|[->| ->]]; [done| |].
    - by rewrite andb_false_r.
    - by rewrite andb_false_r. }
  cbn. rewrite Htext.
  destruct line_prefix as [[|c prefix]|]; cbn; [done| |done].
  by rewrite next_matches.
Qed.

End probe_facts.

Lemma version_probe_undecodable_stderr_witness :
  _version_from_tool
    (λ _ _ : str, Exited (ascii_bytes "1.2.3") [Byte.xff] 0) utf8_decode
    (lit "tool") (lit "--version") false false None
  = (Raise UnicodeDecodeError, []).
Proof.
  refine (version_probe_undecodable_stderr
            (λ _ _ : str, Exited (ascii_bytes "1.2.3") [Byte.xff] 0)
            utf8_decode (lit "tool") (lit "--version") None
            (ascii_bytes "1.2.3") [Byte.xff] 0 UnicodeDecodeError
            eq_refl _ eq_refl).
  discriminate.
Defined.

Lemma version_probe_success_witness :
  _version_from_tool popen_example utf8_decode (lit "tool") (lit "--version")
    false false (Some (lit "tool version"))
  = (Ok (lit "1.2.3"), []).
Proof.
  exact (version_probe_success popen_example utf8_decode (lit "tool")
           (lit "--version") false false (Some (lit "tool version"))
           (ascii_bytes "my tool" ++ [Byte.x0a]
            ++ ascii_bytes "tool version 1.2.3" ++ [Byte.x0a]) []
           (lit "my tool" ++ [10%N] ++ lit "tool version 1.2.3" ++ [10%N])
           eq_refl (or_introl eq_refl) eq_refl).
Defined.

(** C7 as stated fails for a prefix that is given but empty: the probe
    returns both lines of the output, not the first line. *)
Lemma version_probe_empty_prefix :
  let popen := λ _ _ : str,
    Exited (ascii_bytes "a" ++ [Byte.x0a] ++ ascii_bytes "b") [] 0 in
  let output := lit "a" ++ [10%N] ++ lit "b" in
  (_version_from_tool popen utf8_decode (lit "tool") (lit "--version")
     false false (Some [])).1 = Ok output
  ∧ version_by_prefix_if_given (Some []) output = lit "a"
  ∧ (_version_from_tool popen utf8_decode (lit "tool") (lit "--version")
       false false (Some [])).1
    ≠ Ok (version_by_prefix_if_given (Some []) output).
Proof. by repeat split. Qed.

(** ** Abstract methods *)

(** C9 as stated fails for the legacy base class: a class that inherits
    from [BaseTool] and defines neither method is instantiated, and its
    [name()] answers with the default. *)
Lemma BaseTool_subclass_instantiated :
  let c := ToolInfo.mkClass ToolInfo.inherits_BaseTool None None in
  ToolInfo.instantiate c = Ok (ToolInfo.mkInstance c)
  ∧ ToolInfo.name (ToolInfo.mkInstance c) = Ok (lit "UNKOWN").
Proof. by split. Qed.

(** C9, amended: a class that inherits from [BaseTool2] and does not
    define [name] or does not define [executable] cannot be instantiated;
    a class that inherits from the legacy [BaseTool] always can. *)
Theorem instantiate_checks_BaseTool2 (c : ToolInfo.class) :
  match ToolInfo.base c with
  | ToolInfo.inherits_BaseTool2 =>
      ToolInfo.def_name c = None ∨ ToolInfo.def_executable c = None →
      ToolInfo.instantiate c = Raise TypeError
  | ToolInfo.inherits_BaseTool =>
      ToolInfo.instantiate c = Ok (ToolInfo.mkInstance c)
  end.
Proof.
  destruct c as [[] [n|] [e|]]; cbn; try done; intros [?|?]; done.
Qed.

Lemma instantiate_checks_BaseTool2_witness :
  ToolInfo.instantiate
    (ToolInfo.mkClass ToolInfo.inherits_BaseTool2 None (Some (lit "tool")))
  = Raise TypeError.
Proof.
  exact (instantiate_checks_BaseTool2
           (ToolInfo.mkClass ToolInfo.inherits_BaseTool2 None
              (Some (lit "tool")))
           (or_introl eq_refl)).
Defined.

(** * Further properties *)

(** ** Tasks and command lines *)

Lemma Task_new_inv st st' files identifier pf opts t :
  Task.__new__ files identifier pf opts st = Some (Ok t, st') →
  ∃ items opts',
    tuple st files = Some items
    ∧ exactly_one items identifier
    ∧ deepcopy st opts = Some (opts', st')
    ∧ t = Task.mk items identifier pf opts'.
Proof.
  intros Hrun. destruct (tuple st files) as [items|] eqn:Hitems.
  - rewrite (Task_new_run _ _ _ _ _ _ Hitems) in Hrun.
    destruct (negb _) eqn:Hb; [|done].
    destruct (deepcopy st opts) as [[opts' st1]|] eqn:Hcopy; [|done].
    injection Hrun as <- <-. exists items, opts'.
    by rewrite <- exactly_one_bool.
  - unfold Task.__new__, bind, py_tuple in Hrun. by rewrite Hitems in Hrun.
Qed.

(** X1: the default command line of a constructed task never fails: it
    is the executable, the options, and at least one further argument. *)
Theorem cmdline_of_constructed_task st st' files identifier pf opts t
    exe (cmd_opts : list str) rl :
  Task.__new__ files identifier pf opts st = Some (Ok t, st') →
  ∃ items, items ≠ []
    ∧ Task.input_files_or_identifier t = Ok items
    ∧ cmdline exe cmd_opts t rl = Ok ([exe] ++ cmd_opts ++ items).
Proof.
  intros (items & opts' & _ & Hone & _ & ->)%Task_new_inv.
  unfold cmdline, Task.input_files_or_identifier. cbn.
  destruct Hone as [[Hne _]|[-> (s & -> & Hs)]].
  - exists items. by destruct items.
  - exists (chars s). split; [by destruct s|done].
Qed.

Lemma cmdline_of_constructed_task_witness :
  ∃ items, items ≠ []
    ∧ Task.input_files_or_identifier
        (Task.mk [] (Some (lit "id")) None (VAtom ANone)) = Ok items
    ∧ cmdline (lit "tool") [lit "-x"]
        (Task.mk [] (Some (lit "id")) None (VAtom ANone))
        (ResourceLimits.__new__ None None None None None)
      = Ok ([lit "tool"] ++ [lit "-x"] ++ items).
Proof.
  exact (cmdline_of_constructed_task empty empty (SeqTuple [])
           (Some (lit "id")) None (VAtom ANone)
           (Task.mk [] (Some (lit "id")) None (VAtom ANone))
           (lit "tool") [lit "-x"]
           (ResourceLimits.__new__ None None None None None) eq_refl).
Defined.

Lemma concat_chars s : concat (chars s) = s.
Proof. induction s as [|c s IH]; cbn; [done|]. by f_equal. Qed.

(** X2: for a task constructed without files, the arguments that
    [input_files_or_identifier] gives spell the identifier when they are
    put together, and there is at least one. *)
Theorem without_files_arguments_spell_identifier st st' identifier pf opts t :
  Task.without_files identifier pf opts st = Some (Ok t, st') →
  ∃ s items,
    identifier = Some s
    ∧ Task.input_files_or_identifier t = Ok items
    ∧ items ≠ []
    ∧ concat items = s.
Proof.
  unfold Task.without_files.
  intros (items & opts' & [= <-] & Hone & _ & ->)%Task_new_inv.
  destruct Hone as [[? _]|[_ (s & -> & Hs)]]; [done|].
  exists s, (chars s). cbn.
  split; [done|]. split; [done|]. split; [by destruct s|apply concat_chars].
Qed.

Lemma without_files_arguments_spell_identifier_witness :
  ∃ s items,
    Some (lit "id") = Some s
    ∧ Task.input_files_or_identifier
        (Task.mk [] (Some (lit "id")) None (VAtom ANone)) = Ok items
    ∧ items ≠ []
    ∧ concat items = s.
Proof.
  exact (without_files_arguments_spell_identifier empty empty
           (Some (lit "id")) None (VAtom ANone)
           (Task.mk [] (Some (lit "id")) None (VAtom ANone)) eq_refl).
Defined.

(** X3: [input_files] either returns a sequence that is not empty, and
    then [input_files_or_identifier] returns the same sequence, or it
    raises the unsupported-feature exception, which it does exactly for
    the tasks without files. *)
Theorem input_files_nonempty_or_unsupported (t : Task.t) :
  (∃ fs, fs ≠ []
     ∧ Task.input_files t = Ok fs
     ∧ Task.input_files_or_identifier t = Ok fs)
  ∨ (Task.input_files_or_empty t = []
     ∧ Task.input_files t = Raise UnsupportedFeatureException).
Proof.
  destruct (Task.input_files_or_empty t) as [|f fs] eqn:E.
  - right. split; [done|]. by apply input_files_unsupported.
  - left. exists (f :: fs). split; [done|].
    rewrite input_files_ok, input_files_or_identifier_files by by rewrite E.
    by rewrite E.
Qed.

(** X4: for a task with input files, the command line of [BaseTool2] is
    the one the legacy [BaseTool] builds from the same files. *)
Theorem cmdline_agrees_with_legacy exe (opts : list str) (t : Task.t) rl fs :
  Task.input_files t = Ok fs →
  cmdline exe opts t rl = Ok (BaseTool.cmdline exe opts fs).
Proof.
  intros [-> Hne]%input_files_inv.
  unfold cmdline. by rewrite input_files_or_identifier_files.
Qed.

Lemma cmdline_agrees_with_legacy_witness :
  cmdline (lit "tool") [lit "-x"]
    (Task.mk [lit "a.c"] None (Some (lit "p.prp")) (VAtom ANone))
    (ResourceLimits.__new__ (Some 10%Z) (Some 20%Z) None None None)
  = Ok (BaseTool.cmdline (lit "tool") [lit "-x"] [lit "a.c"]).
Proof.
  exact (cmdline_agrees_with_legacy (lit "tool") [lit "-x"]
           (Task.mk [lit "a.c"] None (Some (lit "p.prp")) (VAtom ANone))
           (ResourceLimits.__new__ (Some 10%Z) (Some 20%Z) None None None)
           [lit "a.c"] eq_refl).
Defined.

(** ** Stripping and splitting *)

Lemma lstrip_length s : length (lstrip s) ≤ length s.
Proof.
  induction s as [|c s IH]; cbn; [done|]. destruct (is_space c); cbn; lia.
Qed.

Lemma lstrip_head s c rest : lstrip s = c :: rest → is_space c = false.
Proof.
  induction s as [|d s IH]; cbn; [done|].
  destruct (is_space d) eqn:E; [done|]. by intros [= <- _].
Qed.

Lemma lstrip_fixed c s : is_space c = false → lstrip (c :: s) = c :: s.
Proof. cbn. by intros ->. Qed.

Lemma lstrip_lstrip s : lstrip (lstrip s) = lstrip s.
Proof.
  destruct (lstrip s) as [|c rest] eqn:E; [done|].
  apply lstrip_fixed. by eapply lstrip_head.
Qed.

Lemma lstrip_snoc s c :
  is_space c = false → lstrip (s ++ [c]) = lstrip s ++ [c].
Proof.
  intros Hc. induction s as [|d s IH]; cbn; [by rewrite Hc|].
  by destruct (is_space d).
Qed.

Lemma rstrip_rstrip s : rstrip (rstrip s) = rstrip s.
Proof. unfold rstrip. by rewrite rev_involutive, lstrip_lstrip. Qed.

Lemma rstrip_cons c s :
  is_space c = false → rstrip (c :: s) = c :: rstrip s.
Proof.
  intros Hc. unfold rstrip. cbn.
  by rewrite lstrip_snoc, rev_app_distr.
Qed.

Lemma lstrip_rstrip s : lstrip s = s → lstrip (rstrip s) = rstrip s.
Proof.
  destruct s as [|c s]; [done|]. intros Hs.
  pose proof (lstrip_head _ _ _ Hs) as Hc.
  rewrite rstrip_cons by done. by apply lstrip_fixed.
Qed.

Lemma strip_strip s : strip (strip s) = strip s.
Proof.
  unfold strip.
  rewrite (lstrip_rstrip (lstrip s)) by apply lstrip_lstrip.
  apply rstrip_rstrip.
Qed.

Lemma lstrip_Forall (P : char → Prop) s : Forall P s → Forall P (lstrip s).
Proof.
  induction 1 as [|c s Hc Hs IH]; cbn; [done|].
  destruct (is_space c); [done|]. by constructor.
Qed.

Lemma rev_Forall (P : char → Prop) s : Forall P s → Forall P (rev s).
Proof.
  intros H. apply Forall_forall. intros x Hx%list_elem_of_In%in_rev.
  rewrite Forall_forall in H. by apply H, list_elem_of_In.
Qed.

Lemma strip_Forall (P : char → Prop) s : Forall P s → Forall P (strip s).
Proof.
  intros H. unfold strip, rstrip.
  by apply rev_Forall, lstrip_Forall, rev_Forall, lstrip_Forall.
Qed.

(** No line that [splitlines] gives contains a line break. *)
Lemma splitlines_from_no_break n :
  ∀ s cur, length s ≤ n →
    Forall (λ c, is_linebreak c = false) cur →
    Forall (Forall (λ c, is_linebreak c = false)) (splitlines_from cur s).
Proof.
  induction n as [|n IH]; intros s cur Hlen Hcur.
  - destruct s; [|cbn in Hlen; lia]. cbn.
    destruct cur; [done|]. constructor; [|done]. by apply rev_Forall.
  - destruct s as [|c rest]; cbn.
    { destruct cur; [done|]. constructor; [|done]. by apply rev_Forall. }
    cbn in Hlen. destruct (is_linebreak c) eqn:Ec.
    + constructor; [by apply rev_Forall|].
      destruct rest as [|c2 rest']; [done|]. cbn in Hlen.
      destruct ((c =? 13) && (c2 =? 10))%N; apply IH; cbn; try done; lia.
    + apply IH; [lia|]. by constructor.
Qed.

Lemma splitlines_no_break s :
  Forall (Forall (λ c, is_linebreak c = false)) (splitlines s).
Proof. by apply (splitlines_from_no_break (length s)). Qed.

Lemma startswith_app s prefix :
  startswith s prefix = true → s = prefix ++ drop (length prefix) s.
Proof.
  revert s. induction prefix as [|p prefix IH]; intros s; cbn; [done|].
  destruct s as [|c s]; [done|].
  intros [->%N.eqb_eq Hs]%andb_prop. cbn. f_equal. by apply IH.
Qed.

(** The first item of a list that passes a test splits the list. *)
Lemma find_split {A} (f : A → bool) (l : list A) :
  match List.find f l with
  | Some x => ∃ before after,
      l = before ++ x :: after ∧ f x = true
      ∧ Forall (λ y, f y = false) before
  | None => Forall (λ y, f y = false) l
  end.
Proof.
  induction l as [|y l IH]; cbn; [done|].
  destruct (f y) eqn:Ey.
  - by exists [], l.
  - destruct (List.find f l) as [x|].
    + destruct IH as (before & after & -> & Hx & Hb).
      exists (y :: before), after. split; [done|]. split; [done|].
      by constructor.
    + by constructor.
Qed.

(** ** More on the version probe *)

Section probe_more.

Variable popen : str → str → popen_result.
Variable decode_to_string : list Byte.byte → result str.

(** What the probe computes when nothing makes it give up. *)
Lemma probe_clean_run exe arg use_stderr ignore_stderr line_prefix
    stdout stderr text :
  popen exe arg = Exited stdout stderr 0 →
  stderr = [] ∨ use_stderr = true ∨ ignore_stderr = true →
  decode_to_string (if use_stderr then stderr else stdout) = Ok text →
  (_version_from_tool popen decode_to_string exe arg
     use_stderr ignore_stderr line_prefix).1
  = Ok (version_by_nonempty_prefix line_prefix (strip text)).
Proof.
  intros Hrun Hclean Htext. unfold _version_from_tool. rewrite Hrun.
  assert (bytes_truthy stderr && negb use_stderr && negb ignore_stderr
          = false) as ->.
  { destruct Hclean as [->|[->| ->]]; [done| |]; by rewrite andb_false_r. }
  cbn. rewrite Htext.
  destruct line_prefix as [[|c prefix]|]; cbn; [done| |done].
  by rewrite next_matches.
Qed.

(** The strings that the probe can return: the empty string, the
    stripped text of a stream, or an item of [matches]. *)
Lemma probe_returns exe arg use_stderr ignore_stderr line_prefix v :
  (_version_from_tool popen decode_to_string exe arg
     use_stderr ignore_stderr line_prefix).1 = Ok v →
  v = []
  ∨ (∃ text, v = strip text)
  ∨ (∃ text c prefix, line_prefix = Some (c :: prefix)
       ∧ v = first_prefixed_line (c :: prefix) (strip text)).
Proof.
  unfold _version_from_tool.
  destruct (popen exe arg) as [e|out err rc|e]; cbn; [by intros [= <-]; left| |done].
  destruct (bytes_truthy err && negb use_stderr && negb ignore_stderr).
  { destruct (decode_to_string err); cbn; [|done]. intros [= <-]. by left. }
  destruct (int_truthy rc); cbn; [by intros [= <-]; left|].
  destruct (decode_to_string _) as [text|]; cbn; [|done].
  destruct line_prefix as [[|c prefix]|]; cbn.
  - intros [= <-]. right. left. by exists text.
  - rewrite next_matches. intros [= <-]. right. right. by exists text, c, prefix.
  - intros [= <-]. right. left. by exists text.
Qed.

(** X7: whatever the tool does, a version that the probe returns has no
    white space at its start or at its end: stripping it changes
    nothing. *)
Theorem version_is_stripped exe arg use_stderr ignore_stderr line_prefix v :
  (_version_from_tool popen decode_to_string exe arg
     use_stderr ignore_stderr line_prefix).1 = Ok v →
  strip v = v.
Proof.
  intros [->|[[text ->]|(text & c & prefix & _ & ->)]]%probe_returns.
  - done.
  - apply strip_strip.
  - unfold first_prefixed_line.
    destruct (List.find _ _); [apply strip_strip|done].
Qed.

(** X8: with a prefix that is not empty, a version that the probe
    returns lies on one line: it contains no line break. *)
Theorem version_by_prefix_single_line exe arg use_stderr ignore_stderr
    c prefix v :
  (_version_from_tool popen decode_to_string exe arg
     use_stderr ignore_stderr (Some (c :: prefix))).1 = Ok v →
  Forall (λ x, is_linebreak x = false) v.
Proof.
  unfold _version_from_tool.
  destruct (popen exe arg) as [e|out err rc|e]; cbn;
    [by intros [= <-]| |done].
  destruct (bytes_truthy err && negb use_stderr && negb ignore_stderr).
  { destruct (decode_to_string err); cbn; [|done]. by intros [= <-]. }
  destruct (int_truthy rc); cbn; [by intros [= <-]|].
  destruct (decode_to_string _) as [text|]; cbn; [|done].
  rewrite next_matches. intros [= <-]. unfold first_prefixed_line.
  pose proof (find_split (λ line, startswith line (c :: prefix))
                (splitlines (strip text))) as Hfind.
  destruct (List.find _ _) as [line|]; [|done].
  destruct Hfind as (before & after & Hsplit & _ & _).
  pose proof (splitlines_no_break (strip text)) as Hnb.
  rewrite Hsplit in Hnb. apply Forall_app in Hnb as [_ Hnb].
  apply Forall_cons in Hnb as [Hline _].
  by apply strip_Forall, Forall_drop.
Qed.

(** X9: what a successful probe with a non-empty prefix returns when the
    chosen stream can be decoded. Either no line of the stripped text
    starts with the prefix and the version is empty, or the version is
    the stripped rest of a line [prefix ++ rest] of the text that no line
    starting with the prefix precedes. *)
Theorem version_by_prefix_first_line exe arg use_stderr ignore_stderr
    c prefix stdout stderr text :
  popen exe arg = Exited stdout stderr 0 →
  stderr = [] ∨ use_stderr = true ∨ ignore_stderr = true →
  decode_to_string (if use_stderr then stderr else stdout) = Ok text →
  ∃ version,
    (_version_from_tool popen decode_to_string exe arg
       use_stderr ignore_stderr (Some (c :: prefix))).1 = Ok version
    ∧ ((Forall (λ line, startswith line (c :: prefix) = false)
          (splitlines (strip text))
        ∧ version = [])
       ∨ ∃ before rest after,
           splitlines (strip text)
             = before ++ ((c :: prefix) ++ rest) :: after
           ∧ Forall (λ line, startswith line (c :: prefix) = false) before
           ∧ version = strip rest).
Proof.
  intros Hrun Hclean Htext.
  rewrite (probe_clean_run _ _ _ _ _ _ _ _ Hrun Hclean Htext).
  eexists. split; [done|].
  cbn -[startswith]. unfold first_prefixed_line.
  pose proof (find_split (λ line, startswith line (c :: prefix))
                (splitlines (strip text))) as Hfind.
  destruct (List.find _ (splitlines (strip text))) as [line|].
  - right. destruct Hfind as (before & after & Hsplit & Hline & Hbefore).
    exists before, (drop (length (c :: prefix)) line), after.
    split; [|done]. rewrite Hsplit. do 2 f_equal.
    exact (startswith_app _ _ Hline).
  - by left.
Qed.

(** X10: the probe logs a warning exactly when it returns after giving
    up. When it returns, either it has failed in one of the three ways,
    the version is the empty string and one warning is logged, or it has
    failed in none of them and nothing is logged; when it raises, nothing
    is logged. *)
Theorem version_probe_warns_iff_failure exe arg use_stderr ignore_stderr
    line_prefix :
  let r := _version_from_tool popen decode_to_string exe arg
             use_stderr ignore_stderr line_prefix in
  match r.1 with
  | Ok v =>
      (probe_failure (popen exe arg) use_stderr ignore_stderr
       ∧ v = [] ∧ ∃ w, r.2 = [w])
      ∨ (¬ probe_failure (popen exe arg) use_stderr ignore_stderr
         ∧ r.2 = [])
  | Raise _ => r.2 = []
  end.
Proof.
  cbn. unfold _version_from_tool.
  destruct (popen exe arg) as [e|out err rc|e] eqn:Hrun; cbn; [| |done].
  { left. split; [constructor|]. split; [done|by eexists]. }
  destruct (bytes_truthy err && negb use_stderr && negb ignore_stderr)
    eqn:Hamb.
  { destruct (decode_to_string err); cbn; [|done].
    left. destruct err; [done|]. destruct use_stderr; [done|].
    destruct ignore_stderr; [by rewrite andb_false_r in Hamb|].
    split; [by constructor|]. split; [done|by eexists]. }
  unfold int_truthy. destruct (Z.eqb_spec rc 0) as [->|Hrc]; cbn.
  - destruct (decode_to_string _) as [text|]; cbn; [|done].
    assert (¬ probe_failure (Exited out err 0) use_stderr ignore_stderr)
      as Hnot.
    { inversion 1; subst; [|done]. by destruct err. }
    destruct line_prefix as [p|]; [|by right].
    destruct (truthy p); by right.
  - left. split; [by constructor|]. split; [done|by eexists].
Qed.

End probe_more.

Lemma version_is_stripped_witness :
  (_version_from_tool popen_example utf8_decode (lit "tool")
     (lit "--version") false false (Some (lit "tool version"))).1
  = Ok (lit "1.2.3")
  ∧ strip (lit "1.2.3") = lit "1.2.3".
Proof.
  split; [reflexivity|].
  exact (version_is_stripped popen_example utf8_decode (lit "tool")
           (lit "--version") false false (Some (lit "tool version"))
           (lit "1.2.3") eq_refl).
Defined.

Lemma version_by_prefix_single_line_witness :
  (_version_from_tool popen_example utf8_decode (lit "tool")
     (lit "--version") false false (Some (116%N :: lit "ool version"))).1
  = Ok (lit "1.2.3")
  ∧ Forall (λ x, is_linebreak x = false) (lit "1.2.3").
Proof.
  split; [reflexivity|].
  exact (version_by_prefix_single_line popen_example utf8_decode (lit "tool")
           (lit "--version") false false 116%N (lit "ool version")
           (lit "1.2.3") eq_refl).
Defined.

Lemma version_by_prefix_first_line_witness :
  let text := lit "my tool" ++ [10%N] ++ lit "tool version 1.2.3" ++ [10%N] in
  ∃ version,
    (_version_from_tool popen_example utf8_decode (lit "tool")
       (lit "--version") false false
       (Some (116%N :: lit "ool version"))).1 = Ok version
    ∧ ((Forall (λ line, startswith line (116%N :: lit "ool version") = false)
          (splitlines (strip text))
        ∧ version = [])
       ∨ ∃ before rest after,
           splitlines (strip text)
             = before ++ ((116%N :: lit "ool version") ++ rest) :: after
           ∧ Forall (λ line,
                       startswith line (116%N :: lit "ool version") = false)
               before
           ∧ version = strip rest).
Proof.
  exact (version_by_prefix_first_line popen_example utf8_decode (lit "tool")
           (lit "--version") false false 116%N (lit "ool version")
           (ascii_bytes "my tool" ++ [Byte.x0a]
            ++ ascii_bytes "tool version 1.2.3" ++ [Byte.x0a]) []
           (lit "my tool" ++ [10%N] ++ lit "tool version 1.2.3" ++ [10%N])
           eq_refl (or_introl eq_refl) eq_refl).
Defined.

(** X11: with [use_stderr] the probe does not depend on what the tool
    writes to its standard output, and with [ignore_stderr] (and without
    [use_stderr]) it does not depend on what the tool writes to its
    standard error. *)
Theorem version_probe_ignores_other_stream decode_to_string exe arg
    ignore_stderr line_prefix out out' err err' rc :
  _version_from_tool (λ _ _, Exited out err rc) decode_to_string exe arg
    true ignore_stderr line_prefix
  = _version_from_tool (λ _ _, Exited out' err rc) decode_to_string exe arg
      true ignore_stderr line_prefix
  ∧ _version_from_tool (λ _ _, Exited out err rc) decode_to_string exe arg
      false true line_prefix
    = _version_from_tool (λ _ _, Exited out err' rc) decode_to_string exe arg
        false true line_prefix.
Proof.
  unfold _version_from_tool. cbn. split.
  - by rewrite !andb_false_r.
  - by rewrite !andb_false_r.
Qed.

(** ** More on deep copies *)

(** The shape of a finished copy: a memo that is one-to-one from the
    containers of the original to new containers, each of which holds the
    copies of the items of the container it stands for. *)
Lemma deepcopy_inv st v v' st' :
  heap_ok (objects st) → value_ok (length (objects st)) v →
  deepcopy st v = Some (v', st') →
  lists st' = lists st
  ∧ ∃ memo, copy_inv (objects st) (λ _, False) memo (objects st')
            ∧ val_rel memo v v'.
Proof.
  intros Hok Hv. destruct st as [ls h0]. unfold deepcopy. cbn in *.
  destruct (deepcopy_memo (length h0) ∅ h0 v) as [[[memo h'] w]|] eqn:E;
    [|done].
  intros [= <- <-]. split; [done|]. exists memo.
  assert (copy_inv h0 (λ _, False) ∅ h0) as Hinv0 by by split.
  by destruct (deepcopy_memo_inv h0 Hok _ _ _ _ _ _ _ _ E Hv Hinv0)
    as (Hinv & _ & Hrel).
Qed.

(** X12: constructing a task changes nothing that exists: the lists of
    paths are as before and so is every container, new containers are
    only added; and a construction that raises leaves the store as it
    was. *)
Theorem Task_new_frame st st' files identifier pf opts r :
  heap_ok (objects st) → value_ok (length (objects st)) opts →
  Task.__new__ files identifier pf opts st = Some (r, st') →
  lists st' = lists st
  ∧ (∀ a, a < length (objects st) → objects st' !! a = objects st !! a)
  ∧ (∀ e, r = Raise e → st' = st).
Proof.
  intros Hok Hopts Hrun.
  destruct (tuple st files) as [items|] eqn:Hitems.
  2: { unfold Task.__new__, bind, py_tuple in Hrun.
       by rewrite Hitems in Hrun. }
  rewrite (Task_new_run _ _ _ _ _ _ Hitems) in Hrun.
  destruct (negb _).
  - destruct (deepcopy st opts) as [[opts' st1]|] eqn:Hcopy; [|done].
    injection Hrun as <- <-.
    destruct (deepcopy_inv _ _ _ _ Hok Hopts Hcopy)
      as (Hlists & memo & Hinv & _).
    split; [done|]. split; [|done].
    intros a Ha. by apply (inv_old _ _ _ _ Hinv).
  - by injection Hrun as <- <-.
Qed.

Lemma Task_new_frame_witness :
  let st' := mkStore []
    (objects options_store ++
     [ODict [(AStr (lit "args"), VRef 3); (AStr (lit "self"), VRef 2)];
      OList [VAtom (AStr (lit "-v"))]]) in
  lists st' = lists options_store
  ∧ (∀ a, a < length (objects options_store) →
       objects st' !! a = objects options_store !! a)
  ∧ (∀ e, Ok (Task.mk [lit "a.c"] None None (VRef 2)) = Raise e →
       st' = options_store).
Proof.
  refine (Task_new_frame options_store _ (SeqTuple [lit "a.c"]) None None
            (VRef 0) _ options_store_ok _ eq_refl).
  cbn. lia.
Defined.





(** Each entry of the memo stands for one new container. *)
Lemma deepcopy_items_size cp :
  (∀ memo h v memo' h' v',
     cp memo h v = Some (memo', h', v') →
     length h' + size memo = length h + size memo') →
  ∀ xs memo h memo' h' ys,
    deepcopy_items cp memo h xs = Some (memo', h', ys) →
    length h' + size memo = length h + size memo'.
Proof.
  intros Hcp xs. induction xs as [|x xs IH]; intros memo h memo' h' ys; cbn.
  - by intros [= <- <- <-].
  - destruct (cp memo h x) as [[[memo1 h1] y]|] eqn:E1; [|done].
    destruct (deepcopy_items cp memo1 h1 xs) as [[[memo2 h2] ys']|] eqn:E2;
      [|done].
    intros [= <- <- <-].
    pose proof (Hcp _ _ _ _ _ _ E1). pose proof (IH _ _ _ _ _ E2). lia.
Qed.

Lemma deepcopy_memo_size fuel :
  ∀ memo h v memo' h' v',
    deepcopy_memo fuel memo h v = Some (memo', h', v') →
    length h' + size memo = length h + size memo'.
Proof.
  induction fuel as [|fuel IH]; intros memo h v memo' h' v';
    destruct v as [x|a]; cbn.
  - by intros [= <- <- <-].
  - destruct (memo !! a); [|done]. by intros [= <- <- <-].
  - by intros [= <- <- <-].
  - destruct (memo !! a) eqn:Ea; [by intros [= <- <- <-]|].
    destruct (h !! a) as [o|]; [|done].
    destruct (deepcopy_items _ _ _ _) as [[[memo1 h1] ys]|] eqn:E; [|done].
    intros [= <- <- <-].
    pose proof (deepcopy_items_size _ IH _ _ _ _ _ _ E) as Hsize.
    rewrite length_app, (map_size_insert_None _ _ _ Ea) in Hsize.
    rewrite length_insert. cbn in Hsize. lia.
Qed.

Lemma memo_size_bound h0 busy memo h :
  copy_inv h0 busy memo h → size memo ≤ length h0.
Proof.
  intros Hinv.
  rewrite <- (size_dom (D:=gset nat)).
  rewrite <- (size_set_seq (C:=gset nat) 0 (length h0)).
  apply subseteq_size. intros a [a' Ha]%elem_of_dom.
  apply elem_of_set_seq. apply (inv_range _ _ _ _ Hinv) in Ha. lia.
Qed.

(** X15: constructing a task makes at most one new container for each
    container there is: the number of containers at most doubles. *)
Theorem Task_new_allocates_at_most st st' files identifier pf opts t :
  heap_ok (objects st) → value_ok (length (objects st)) opts →
  Task.__new__ files identifier pf opts st = Some (Ok t, st') →
  length (objects st) ≤ length (objects st') ≤ 2 * length (objects st).
Proof.
  intros Hok Hopts (items & opts' & _ & _ & Hcopy & ->)%Task_new_inv.
  destruct st as [ls h0]. unfold deepcopy in Hcopy. cbn in *.
  destruct (deepcopy_memo (length h0) ∅ h0 opts) as [[[memo h1] w]|] eqn:E;
    [|done].
  injection Hcopy as <- <-.
  pose proof (deepcopy_memo_size _ _ _ _ _ _ _ E) as Hsize.
  rewrite map_size_empty in Hsize.
  assert (copy_inv h0 (λ _, False) ∅ h0) as Hinv0 by by split.
  destruct (deepcopy_memo_inv h0 Hok _ _ _ _ _ _ _ _ E Hopts Hinv0)
    as (Hinv & _ & _).
  pose proof (inv_length _ _ _ _ Hinv).
  pose proof (memo_size_bound _ _ _ _ Hinv). cbn. lia.
Qed.

Lemma Task_new_allocates_at_most_witness :
  length (objects options_store) ≤ 4 ≤ 2 * length (objects options_store).
Proof.
  refine (Task_new_allocates_at_most options_store
            (mkStore []
               (objects options_store ++
                [ODict [(AStr (lit "args"), VRef 3);
                        (AStr (lit "self"), VRef 2)];
                 OList [VAtom (AStr (lit "-v"))]]))
            (SeqTuple [lit "a.c"])
            None None (VRef 0) (Task.mk [lit "a.c"] None None (VRef 2))
            options_store_ok _ eq_refl).
  cbn. lia.
Defined.

(** ** Program files *)

Import OsPath.

Section program_files_facts.

Variable expand_filename_pattern : str → str → list str.

(** X16: the program files are the executable, which comes first, and
    what the required patterns expand to in the directory of the
    executable, nothing else. *)
Theorem program_files_elem (REQUIRED_PATHS : list str) (exe p : str) :
  head (program_files expand_filename_pattern REQUIRED_PATHS exe) = Some exe
  ∧ (p ∈ program_files expand_filename_pattern REQUIRED_PATHS exe
     ↔ p = exe
       ∨ ∃ pattern, pattern ∈ REQUIRED_PATHS
           ∧ p ∈ expand_filename_pattern pattern (dirname exe)).
Proof.
  split; [done|].
  unfold program_files, _program_files_from_executable. cbn.
  rewrite elem_of_cons.
  induction REQUIRED_PATHS as [|r rs IH]; cbn.
  - split; [intros [?|?%elem_of_nil]; [by left|done]|].
    intros [?|(pattern & ?%elem_of_nil & _)]; [by left|done].
  - rewrite elem_of_app. split.
    + intros [?|[Hr|Hrs]]; [by left| |].
      * right. exists r. split; [by left|done].
      * destruct (proj1 IH (or_intror Hrs)) as [?|(pattern & ? & ?)];
          [by left|].
        right. exists pattern. split; [by right|done].
    + intros [?|(pattern & [->|Hin]%elem_of_cons & Hp)]; [by left| |].
      * right. by left.
      * destruct (proj2 IH (or_intror (ex_intro _ pattern (conj Hin Hp))))
          as [?|?]; [by left|]. right. by right.
Qed.

End program_files_facts.

Lemma drop_while_app f l1 l2 :
  Forall (λ c, f c = true) l1 →
  drop_while f (l1 ++ l2) = drop_while f l2.
Proof. induction 1 as [|c l1 Hc _ IH]; cbn; [done|]. by rewrite Hc. Qed.

Lemma drop_while_all f l :
  Forall (λ c, f c = true) l → drop_while f l = [].
Proof.
  intros H. rewrite <- (app_nil_r l). by rewrite drop_while_app.
Qed.

Lemma startswith_sep_free name :
  Forall (λ c, is_sep c = false) name → startswith name [sep] = false.
Proof.
  destruct 1 as [|c name Hc _]; cbn; [done|].
  unfold is_sep in Hc. by rewrite Hc.
Qed.

(** The directory of [join d name] is [d], when [name] has no slash and
    [d] does not end with a slash or consists of slashes only. *)
Lemma dirname_join d name :
  Forall (λ c, is_sep c = false) name →
  ends_with_sep d = false ∨ forallb is_sep d = true →
  dirname (join d name) = d.
Proof.
  intros Hname Hd. unfold join. rewrite (startswith_sep_free _ Hname).
  assert (Forall (λ c, negb (is_sep c) = true) (rev name)) as Hrev.
  { apply rev_Forall. eapply Forall_impl; [exact Hname|].
    intros c Hc. cbn in Hc. by rewrite Hc. }
  destruct (rev d) as [|x r] eqn:Er.
  - assert (d = []) as -> by (by rewrite <- (rev_involutive d), Er).
    cbn. unfold dirname. by rewrite drop_while_all.
  - assert (d = rev r ++ [x]) as Hd' by (by rewrite <- (rev_involutive d), Er).
    assert (truthy d = true) as -> by (rewrite Hd'; by destruct (rev r)).
    assert (last d = Some x) as Hlast by (rewrite Hd'; apply last_snoc).
    unfold ends_with_sep in *. rewrite Hlast in *. cbn [negb orb].
    unfold dirname. destruct (is_sep x) eqn:Ex.
    + destruct Hd as [?|Hall]; [done|].
      rewrite rev_app_distr, drop_while_app by done.
      rewrite Er. cbn. rewrite Ex. cbn.
      rewrite <- Hd'. by rewrite Hall.
    + rewrite !rev_app_distr, <- app_assoc, drop_while_app by done.
      cbn. rewrite rev_involutive.
      assert (forallb is_sep (d ++ [sep]) = false) as ->.
      { rewrite Hd', !forallb_app. cbn. rewrite Ex.
        by rewrite andb_false_r. }
      unfold rstrip_sep. rewrite rev_app_distr. cbn.
      rewrite Er. cbn. rewrite Ex. cbn. by rewrite <- Hd'.
Qed.

(** X17: for an executable [join d name], where [name] has no slash and
    [d] does not end with a slash (or is the root), the required paths
    are expanded in [d], or in [join d ".."] when the parent directory is
    asked for, one pattern after the other. *)
Theorem program_files_of_joined_path
    (expand_filename_pattern : str → str → list str)
    (d name : str) (required_paths : list str) (parent_dir : bool) :
  Forall (λ c, is_sep c = false) name →
  ends_with_sep d = false ∨ forallb is_sep d = true →
  _program_files_from_executable expand_filename_pattern (join d name)
    required_paths parent_dir
  = concat ((λ path, expand_filename_pattern path
                       (if parent_dir then join d pardir else d))
            <$> required_paths).
Proof.
  intros Hname Hd. unfold _program_files_from_executable.
  by rewrite dirname_join.
Qed.

Lemma program_files_of_joined_path_witness :
  _program_files_from_executable (λ pattern base, [join base pattern])
    (join (lit "bin") (lit "tool")) [lit "lib"; lit "cfg"] true
  = [lit "bin/../lib"; lit "bin/../cfg"].
Proof.
  refine (program_files_of_joined_path (λ pattern base, [join base pattern])
            (lit "bin") (lit "tool") [lit "lib"; lit "cfg"] true _
            (or_introl eq_refl)).
  cbn. repeat constructor.
Defined.

(** ** More on tasks with files and on empty output *)

(** X18: a task that [with_files] constructs has no identifier and keeps
    its property file, and [input_files] returns on it: it gives the
    items of the sequence that was passed, of which there is at least
    one. *)
Theorem with_files_supports_input_files st st' files pf opts t :
  Task.with_files files pf opts st = Some (Ok t, st') →
  ∃ items, tuple st files = Some items
    ∧ items ≠ []
    ∧ Task.input_files t = Ok items
    ∧ Task.identifier t = None
    ∧ Task.property_file t = pf.
Proof.
  unfold Task.with_files.
  intros (items & opts' & Hitems & Hone & _ & ->)%Task_new_inv.
  destruct Hone as [[Hne _]|[_ (s & [=] & _)]].
  exists items. split; [done|]. split; [done|].
  split; [|done]. by apply input_files_ok.
Qed.

Lemma with_files_supports_input_files_witness :
  ∃ items, tuple files_store (SeqList 0) = Some items
    ∧ items ≠ []
    ∧ Task.input_files
        (Task.mk [lit "a.c"; lit "b.c"] None (Some (lit "p.prp"))
           (VAtom ANone)) = Ok items
    ∧ None = (None : option str)
    ∧ Some (lit "p.prp") = Some (lit "p.prp").
Proof.
  exact (with_files_supports_input_files files_store files_store (SeqList 0)
           (Some (lit "p.prp")) (VAtom ANone)
           (Task.mk [lit "a.c"; lit "b.c"] None (Some (lit "p.prp"))
              (VAtom ANone)) eq_refl).
Defined.

Lemma lstrip_all_space s :
  Forall (λ c, is_space c = true) s → lstrip s = [].
Proof. induction 1 as [|c s Hc _ IH]; cbn; [done|]. by rewrite Hc. Qed.

(** X19: when the stream that the probe reads decodes to nothing but
    white space, a version that the probe returns is the empty string,
    with or without a prefix. *)
Theorem version_of_blank_output (popen : str → str → popen_result)
    (decode_to_string : list Byte.byte → result str) exe arg
    (use_stderr ignore_stderr : bool) line_prefix stdout stderr returncode
    text v :
  popen exe arg = Exited stdout stderr returncode →
  decode_to_string (if use_stderr then stderr else stdout) = Ok text →
  Forall (λ c, is_space c = true) text →
  (_version_from_tool popen decode_to_string exe arg
     use_stderr ignore_stderr line_prefix).1 = Ok v →
  v = [].
Proof.
  intros Hrun Htext Hblank. unfold _version_from_tool. rewrite Hrun.
  destruct (bytes_truthy stderr && negb use_stderr && negb ignore_stderr).
  { destruct (decode_to_string stderr); cbn; [|done]. by intros [= <-]. }
  destruct (int_truthy returncode); cbn; [by intros [= <-]|].
  rewrite Htext.
  assert (strip text = []) as ->.
  { unfold strip. by rewrite (lstrip_all_space _ Hblank). }
  destruct line_prefix as [p|]; [|by intros [= <-]].
  destruct (truthy p); by intros [= <-].
Qed.

Lemma version_of_blank_output_witness :
  (_version_from_tool
     (λ _ _ : str, Exited (ascii_bytes "  " ++ [Byte.x0a]) [] 0%Z)
     utf8_decode (lit "tool") (lit "--version") false false
     (Some (lit "v"))).1 = Ok []
  ∧ ([] : str) = [].
Proof.
  split; [reflexivity|].
  refine (version_of_blank_output
            (λ _ _ : str, Exited (ascii_bytes "  " ++ [Byte.x0a]) [] 0%Z)
            utf8_decode (lit "tool") (lit "--version") false false
            (Some (lit "v")) (ascii_bytes "  " ++ [Byte.x0a]) [] 0%Z
            (lit "  " ++ [10%N]) [] eq_refl eq_refl _ eq_refl).
  cbn. repeat constructor.
Defined.
